(** * NVS partition generator and parser of esp-webflash-toolkit

    A shallow embedding of [NVSGenerator] (nvs-generator.js): the CRC32
    routine, [createEntry], [writeEntry], [finalizePage], [generate] and
    [parse], with the helpers [generateNVSFromConfig] and [parseNVSConfig],
    followed by the properties of the partition codec.

    Conventions of the embedding.
    - A [Uint8Array] is a [list Z] of bytes; offsets, indices and lengths
      are [nat]; byte contents and JavaScript numbers are [Z].
    - An indexed store [binary[i] = v] is stdpp's list insert (nothing
      happens out of range, as for a typed array) after [ToUint8].
      [TypedArray.set] and the [DataView] accessors throw [RangeError]
      out of range, which the embedding makes explicit.
    - A JavaScript string is a [string] holding its UTF-8 bytes.  On ASCII
      text [TextEncoder.encode] and [TextDecoder.decode] are the identity
      on those bytes and [substring] counts bytes; statements that need it
      say [ascii_string].
    - A plain data object is the list of its own properties in
      [Object.entries] order.  Property names that are array indices
      (enumerated first by JavaScript) or members of [Object.prototype]
      are outside the embedding. *)

From Stdlib Require Import ZArith Ascii String DecimalString Lia.
From stdpp Require Import base tactics option list numbers strings.

Local Open Scope string_scope.
Local Open Scope list_scope.
Local Open Scope Z_scope.

(** ** Results of throwing code *)

Inductive error : Type :=
  | RangeError             (* TypedArray.set / DataView out of bounds *)
  | PartitionTooSmall      (* Error('NVS partition size too small for data') *)
  | FloatNotSupported      (* Error('Float values not supported yet') *)
  | UnsupportedValueType.  (* Error(`Unsupported value type for key ...`) *)

Inductive result (A : Type) : Type :=
  | Ok (a : A)
  | Throw (e : error).
Arguments Ok {A} a.
Arguments Throw {A} e.

Definition rbind {A B} (r : result A) (k : A -> result B) : result B :=
  match r with
  | Ok a => k a
  | Throw e => Throw e
  end.

Notation "'let*' x := r 'in' k" := (rbind r (fun x => k))
  (at level 10, x name, r at level 200, k at level 200).

Fixpoint foldM {S A} (f : S -> A -> result S) (l : list A) (s : S) : result S :=
  match l with
  | [] => Ok s
  | a :: l' => let* s' := f s a in foldM f l' s'
  end.

(** ** Constants of the constructor *)

Definition PAGE_SIZE : nat := 4096.
Definition ENTRY_SIZE : nat := 32.
Definition ENTRIES_PER_PAGE : nat := 126.

Definition TYPE_U8 : Z := 0x01.
Definition TYPE_I8 : Z := 0x11.
Definition TYPE_U16 : Z := 0x02.
Definition TYPE_I16 : Z := 0x12.
Definition TYPE_U32 : Z := 0x04.
Definition TYPE_I32 : Z := 0x14.
Definition TYPE_STR : Z := 0x21.
Definition TYPE_BLOB : Z := 0x41.

Definition PAGE_STATE_ACTIVE : Z := 0xFFFFFFFE.
Definition PAGE_STATE_FULL : Z := 0xFFFFFFFC.
Definition PAGE_STATE_EMPTY : Z := 0xFFFFFFFF.

(** ** Number conversions and bit operators of JavaScript *)

Definition to_uint8 (z : Z) : Z := z mod 256.
Definition to_uint16 (z : Z) : Z := z mod 65536.
(** [ToUint32] keeps the low 32 bits, [ToInt32] reads them as signed. *)
Definition to_uint32 (z : Z) : Z := Z.land z 0xFFFFFFFF.
Definition to_int32 (z : Z) : Z :=
  let u := to_uint32 z in if u <? 0x80000000 then u else u - 0x100000000.

Definition js_xor (a b : Z) : Z := Z.lxor (to_int32 a) (to_int32 b).
Definition js_and (a b : Z) : Z := Z.land (to_int32 a) (to_int32 b).
Definition js_not (a : Z) : Z := Z.lnot (to_int32 a).
Definition js_ushr (a : Z) (n : Z) : Z := Z.shiftr (to_uint32 a) n.

(** Little-endian bytes of an unsigned value, [n] of them. *)
Fixpoint le_bytes (n : nat) (v : Z) : list Z :=
  match n with
  | O => []
  | S n' => v mod 256 :: le_bytes n' (v / 256)
  end.

(** Little-endian value of a list of bytes. *)
Fixpoint le_value (l : list Z) : Z :=
  match l with
  | [] => 0
  | x :: l' => x + 256 * le_value l'
  end.

(** ** Strings as UTF-8 bytes *)

Definition byte_of_ascii (c : ascii) : Z := Z.of_N (N_of_ascii c).
Definition ascii_of_byte (z : Z) : ascii := ascii_of_N (Z.to_N z).

(** [new TextEncoder().encode(s)] *)
Definition text_encode (s : string) : list Z :=
  map byte_of_ascii (list_ascii_of_string s).

(** [new TextDecoder().decode(bytes)] *)
Definition text_decode (l : list Z) : string :=
  string_of_list_ascii (map ascii_of_byte l).

(** [s.substring(0, n)] *)
Definition substring0 (n : nat) (s : string) : string := String.substring 0 n s.

Definition ascii_string (s : string) : Prop :=
  Forall (fun z => z < 128) (text_encode s).

(** ** calculateCRC32 *)

(** One turn of the inner loop: [crc = (crc >>> 1) ^ (0xEDB88320 & -(crc & 1))]. *)
Definition crc_shift (crc : Z) : Z :=
  js_xor (js_ushr crc 1) (js_and 0xEDB88320 (- (js_and crc 1))).

(** One turn of the outer loop: [crc ^= data[i]] and eight shifts. *)
Definition crc_byte (crc byte : Z) : Z :=
  Nat.iter 8 crc_shift (js_xor crc byte).

Definition calculateCRC32 (data : list Z) : Z :=
  js_ushr (js_not (fold_left crc_byte data 0xFFFFFFFF)) 0.

(** ** Typed-array and DataView primitives *)

(** [binary[i] = v] *)
Definition store (b : list Z) (i : nat) (v : Z) : list Z :=
  <[i := to_uint8 v]> b.

(** [binary[i]] read into a number context ([undefined] converts to 0 when
    stored into another typed array). *)
Definition load (b : list Z) (i : nat) : Z := default 0 (b !! i).

(** [binary.slice(from, to)] for [from <= to] *)
Definition slice (b : list Z) (from to : nat) : list Z :=
  take (to - from) (drop from b).

(** [binary.set(src, offset)]: the bytes of [src] replace those at
    [offset .. offset + src.length - 1]. *)
Definition set_bytes (b : list Z) (src : list Z) (offset : nat) : result (list Z) :=
  if (offset + length src <=? length b)%nat
  then Ok (take offset b ++ src ++ drop (offset + length src) b)
  else Throw RangeError.

(** [view.setUint16(offset, v, true)] *)
Definition setUint16 (b : list Z) (offset : nat) (v : Z) : result (list Z) :=
  set_bytes b (le_bytes 2 (to_uint16 v)) offset.

(** [view.setUint32(offset, v, true)] *)
Definition setUint32 (b : list Z) (offset : nat) (v : Z) : result (list Z) :=
  set_bytes b (le_bytes 4 (to_uint32 v)) offset.

(** ** Values and entries *)

Inductive jsvalue : Type :=
  | VStr (s : string)     (* typeof value === 'string' *)
  | VInt (z : Z)          (* a number with Number.isInteger(value) *)
  | VFloat                (* any other number *)
  | VBytes (l : list Z)   (* a Uint8Array, typeof 'object' *)
  | VOther.               (* boolean, null, undefined, other objects *)

Record Entry : Type := mkEntry {
  e_namespace : nat;
  e_type : Z;
  e_span : nat;
  e_key : string;
  e_data : list Z
}.

(** [Math.ceil(a / b)] on lengths *)
Definition ceil_div (a b : nat) : nat := ((a + b - 1) / b)%nat.

Definition is_str_or_blob (type : Z) : bool :=
  (type =? TYPE_STR) || (type =? TYPE_BLOB).

(** ** createEntry *)

Definition createEntry (namespaceIndex : nat) (key : string) (value : jsvalue)
  : result Entry :=
  let* td := match value with
        | VStr s => Ok (TYPE_STR, text_encode s ++ [0])
        | VInt z =>
            if (0 <=? z) && (z <=? 255) then Ok (TYPE_U8, [to_uint8 z])
            else if (0 <=? z) && (z <=? 65535) then Ok (TYPE_U16, le_bytes 2 (to_uint16 z))
            else Ok (TYPE_U32, le_bytes 4 (to_uint32 z))
        | VFloat => Throw FloatNotSupported
        | VBytes _ => Throw UnsupportedValueType
        | VOther => Throw UnsupportedValueType
        end in
  let type := fst td in
  let data := snd td in
  let span := if is_str_or_blob type
              then (1 + ceil_div (length data) ENTRY_SIZE)%nat
              else 1%nat in
  Ok (mkEntry namespaceIndex type span key data).

(** ** writeEntry *)

Definition entry_offset (pageIndex entryIndex : nat) : nat :=
  (pageIndex * PAGE_SIZE + 32 + entryIndex * ENTRY_SIZE)%nat.

(** [for (let i = keyBytes.length; i < 16; i++) binary[offset + 8 + i] = 0]
    as the stores at [i = from, from+1, ..] for [n] turns. *)
Fixpoint zero_fill (b : list Z) (base from n : nat) : list Z :=
  match n with
  | O => b
  | S n' => zero_fill (store b (base + from) 0) base (S from) n'
  end.

(** The continuation loop [for (let i = 1; i < entry.span; i++)]: [n] turns
    left, the next one with index [i] and [dataOffset]. *)
Fixpoint write_chunks (b : list Z) (offset : nat) (data : list Z)
    (i dataOffset n : nat) : result (list Z) :=
  match n with
  | O => Ok b
  | S n' =>
      let nextEntryOffset := (offset + i * ENTRY_SIZE)%nat in
      let chunk := slice data dataOffset (dataOffset + ENTRY_SIZE) in
      let* b' := set_bytes b chunk nextEntryOffset in
      write_chunks b' offset data (S i) (dataOffset + ENTRY_SIZE) n'
  end.

(** [crcData.set(src, at)] on the fresh 28-byte array: [src] is never
    longer than the room left. *)
Definition overlay (crcData src : list Z) (at_ : nat) : list Z :=
  take at_ crcData ++ src ++ drop (at_ + length src) crcData.

(** The 28-byte window handed to the checksum. *)
Definition crc_window (b : list Z) (offset : nat) : list Z :=
  let crcData :=
    [load b offset; load b (offset + 1); load b (offset + 2); load b (offset + 3)]
    ++ replicate 24 0 in
  let crcData := overlay crcData (slice b (offset + 8) (offset + 24)) 4 in
  overlay crcData (slice b (offset + 24) (offset + 32)) 20.

Definition writeEntry (binary : list Z) (pageIndex entryIndex : nat) (entry : Entry)
  : result (list Z) :=
  let offset := entry_offset pageIndex entryIndex in
  let b := store binary (offset + 0) (Z.of_nat (e_namespace entry)) in
  let b := store b (offset + 1) (e_type entry) in
  let b := store b (offset + 2) (Z.of_nat (e_span entry)) in
  let b := store b (offset + 3) 0xFF in
  let keyBytes := text_encode (substring0 15 (e_key entry)) in
  let* b := set_bytes b keyBytes (offset + 8) in
  let b := zero_fill b (offset + 8) (length keyBytes) (16 - length keyBytes) in
  let* b := (if is_str_or_blob (e_type entry)
        then
          let* b := setUint16 b (offset + 24) (Z.of_nat (length (e_data entry))) in
          write_chunks b offset (e_data entry) 1 0 (e_span entry - 1)
        else set_bytes b (e_data entry) (offset + 24)) in
  let crc := calculateCRC32 (crc_window b offset) in
  setUint32 b (offset + 4) crc.

(** ** finalizePage *)

Definition finalizePage (binary : list Z) (pageIndex numEntries : nat)
  : result (list Z) :=
  let offset := (pageIndex * PAGE_SIZE)%nat in
  let* b := setUint32 binary (offset + 0) PAGE_STATE_ACTIVE in
  let* b := setUint32 b (offset + 4) (Z.of_nat pageIndex) in
  let* b := setUint32 b (offset + 8) 0xFFFFFFFF in
  let headerCRC := calculateCRC32 (slice b offset (offset + 28)) in
  setUint32 b (offset + 28) headerCRC.

(** ** Plain objects *)

Definition jsobject (A : Type) : Type := list (string * A).

(** [o[k]] on own properties *)
Fixpoint obj_get {A} (o : jsobject A) (k : string) : option A :=
  match o with
  | [] => None
  | (k', v) :: o' => if String.eqb k' k then Some v else obj_get o' k
  end.

(** [o[k] = v]: an existing property keeps its place, a new one goes last. *)
Fixpoint obj_set {A} (o : jsobject A) (k : string) (v : A) : jsobject A :=
  match o with
  | [] => [(k, v)]
  | (k', v') :: o' =>
      if String.eqb k' k then (k', v) :: o' else (k', v') :: obj_set o' k v
  end.

Definition nvs_data : Type := jsobject (jsobject jsvalue).

(** ** generate *)

(** The loop that builds [namespaceMap], with the counter [namespaceIndex]. *)
Definition namespace_map_step (acc : jsobject nat * nat)
    (ns : string * jsobject jsvalue) : jsobject nat * nat :=
  if (0 <? length (snd ns))%nat
  then (obj_set (fst acc) (fst ns) (S (snd acc)), S (snd acc))
  else acc.

Definition build_namespace_map (data : nvs_data) : jsobject nat :=
  fst (fold_left namespace_map_step data ([], 0%nat)).

(** The loop variables [binary], [pageIndex], [entryIndex]. *)
Record gstate : Type := mkG {
  g_binary : list Z;
  g_page : nat;
  g_entry : nat
}.

Definition bitmap_offset (pageIndex : nat) : nat := (pageIndex * PAGE_SIZE + 32)%nat.

Definition write_bitmap (b : list Z) (pageIndex : nat) : list Z :=
  store (store b (bitmap_offset pageIndex) 0xAA) (bitmap_offset pageIndex + 1) 0xAA.

(** Body of the inner loop over [Object.entries(entries)]. *)
Definition generate_kv (numPages nsIndex : nat) (st : gstate)
    (kv : string * jsvalue) : result gstate :=
  let* entry := createEntry nsIndex (fst kv) (snd kv) in
  let* b := writeEntry (g_binary st) (g_page st) (g_entry st) entry in
  let entryIndex := (g_entry st + e_span entry)%nat in
  if (ENTRIES_PER_PAGE <=? entryIndex)%nat
  then
    let* b := finalizePage b (g_page st) entryIndex in
    let pageIndex := S (g_page st) in
    let b := write_bitmap b pageIndex in
    if (numPages <=? pageIndex)%nat
    then Throw PartitionTooSmall
    else Ok (mkG b pageIndex 1)
  else Ok (mkG b (g_page st) entryIndex).

(** Body of the outer loop over [Object.entries(data)]. *)
Definition generate_ns (numPages : nat) (namespaceMap : jsobject nat)
    (st : gstate) (ns : string * jsobject jsvalue) : result gstate :=
  if (0 <? length (snd ns))%nat
  then
    let nsIndex := default 0%nat (obj_get namespaceMap (fst ns)) in
    let* b := writeEntry (g_binary st) (g_page st) (g_entry st)
           (mkEntry 0 0x01 1 (fst ns) [to_uint8 (Z.of_nat nsIndex)]) in
    foldM (generate_kv numPages nsIndex) (snd ns)
          (mkG b (g_page st) (S (g_entry st)))
  else Ok st.

Definition generate (data : nvs_data) (partitionSize : nat) : result (list Z) :=
  let numPages := (partitionSize / PAGE_SIZE)%nat in
  let binary := replicate partitionSize 0xFF in
  let namespaceMap := build_namespace_map data in
  let binary := write_bitmap binary 0 in
  let* st := foldM (generate_ns numPages namespaceMap) data (mkG binary 0 1) in
  if (0 <? g_entry st)%nat
  then finalizePage (g_binary st) (g_page st) (g_entry st)
  else Ok (g_binary st).

(** ** parse *)

(** [view.getUint8(offset)] and its siblings; out of bounds they throw. *)
Definition read_bytes (b : list Z) (offset n : nat) : result (list Z) :=
  if (offset + n <=? length b)%nat
  then Ok (take n (drop offset b))
  else Throw RangeError.

Definition getUint (n : nat) (b : list Z) (offset : nat) : result Z :=
  let* l := read_bytes b offset n in Ok (le_value l).

Definition signed (bits : Z) (v : Z) : Z :=
  if v <? 2 ^ (bits - 1) then v else v - 2 ^ bits.

Definition getUint8 := getUint 1.
Definition getUint16 := getUint 2.
Definition getUint32 := getUint 4.
Definition getInt8 (b : list Z) (offset : nat) : result Z :=
  let* v := getUint 1 b offset in Ok (signed 8 v).
Definition getInt16 (b : list Z) (offset : nat) : result Z :=
  let* v := getUint 2 b offset in Ok (signed 16 v).
Definition getInt32 (b : list Z) (offset : nat) : result Z :=
  let* v := getUint 4 b offset in Ok (signed 32 v).

(** [arr.indexOf(0)], [None] for -1 *)
Fixpoint index_of_zero (l : list Z) : option nat :=
  match l with
  | [] => None
  | x :: l' => if x =? 0 then Some O else option_map S (index_of_zero l')
  end.

(** The loop variables [data] and [namespaces] of [parse]. *)
Record pstate : Type := mkP {
  p_data : nvs_data;
  p_namespaces : nat -> option string
}.

Definition namespaces_set (m : nat -> option string) (i : nat) (name : string)
  : nat -> option string :=
  fun j => if (j =? i)%nat then Some name else m j.

(** [if (!data[key]) data[key] = {}] *)
Definition ensure_object (data : nvs_data) (key : string) : nvs_data :=
  match obj_get data key with
  | Some _ => data
  | None => obj_set data key []
  end.

(** [data[namespaceName][key] = value] *)
Definition set_value (data : nvs_data) (namespaceName key : string) (value : jsvalue)
  : nvs_data :=
  obj_set data namespaceName
    (obj_set (default [] (obj_get data namespaceName)) key value).

Definition decimal (n : nat) : string := NilZero.string_of_uint (Nat.to_uint n).

(** [namespaces[namespace] || `ns_${namespace}`] *)
Definition namespace_name (namespaces : nat -> option string) (namespace : nat)
  : string :=
  match namespaces namespace with
  | Some name => if String.eqb name "" then "ns_" ++ decimal namespace else name
  | None => "ns_" ++ decimal namespace
  end.

(** The loop [for (let s = 1; s < span; s++)] that gathers a string:
    [n] turns left, the next with index [s]. *)
Fixpoint read_chunks (b : list Z) (entryOffset strLen : nat)
    (totalBytes : list Z) (bytesRead s n : nat) : result (list Z) :=
  match n with
  | O => Ok totalBytes
  | S n' =>
      let spanOffset := (entryOffset + s * ENTRY_SIZE)%nat in
      let chunkSize := Nat.min (strLen - bytesRead) ENTRY_SIZE in
      let* chunk := read_bytes b spanOffset chunkSize in
      read_chunks b entryOffset strLen (overlay totalBytes chunk bytesRead)
        (bytesRead + chunkSize) (S s) n'
  end.

(** The value of a data entry by its type; [None] for an unknown type. *)
Definition parse_value (b : list Z) (entryOffset : nat) (type : Z) (span : nat)
  : result (option jsvalue) :=
  if type =? TYPE_U8 then
    let* v := getUint8 b (entryOffset + 24) in Ok (Some (VInt v))
  else if type =? TYPE_I8 then
    let* v := getInt8 b (entryOffset + 24) in Ok (Some (VInt v))
  else if type =? TYPE_U16 then
    let* v := getUint16 b (entryOffset + 24) in Ok (Some (VInt v))
  else if type =? TYPE_I16 then
    let* v := getInt16 b (entryOffset + 24) in Ok (Some (VInt v))
  else if type =? TYPE_U32 then
    let* v := getUint32 b (entryOffset + 24) in Ok (Some (VInt v))
  else if type =? TYPE_I32 then
    let* v := getInt32 b (entryOffset + 24) in Ok (Some (VInt v))
  else if type =? TYPE_STR then
    let* strLen := getUint16 b (entryOffset + 24) in
    let strLen := Z.to_nat strLen in
    let* totalBytes :=
      read_chunks b entryOffset strLen (replicate strLen 0) 0 1 (span - 1) in
    let actualLen := default strLen (index_of_zero totalBytes) in
    Ok (Some (VStr (text_decode (slice totalBytes 0 actualLen))))
  else if type =? TYPE_BLOB then
    let* blobLen := getUint16 b (entryOffset + 20) in
    let* bytes := read_bytes b (entryOffset + 24) (Nat.min (Z.to_nat blobLen) 8) in
    Ok (Some (VBytes bytes))
  else Ok None.

(** One turn of the loop over the entries of a page: the new [data] and
    [namespaces] and the next [entryIdx]. *)
Definition parse_entry (b : list Z) (pageOffset entryIdx : nat) (st : pstate)
  : result (pstate * nat) :=
  let entryOffset := (pageOffset + 32 + entryIdx * ENTRY_SIZE)%nat in
  let* namespace := getUint8 b entryOffset in
  if namespace =? 0xFF then Ok (st, S entryIdx)
  else
    let* type := getUint8 b (entryOffset + 1) in
    let* span := getUint8 b (entryOffset + 2) in
    let span := Z.to_nat span in
    let* keyBytes := read_bytes b (entryOffset + 8) 16 in
    let keyEnd := index_of_zero keyBytes in
    let key := text_decode (slice keyBytes 0
                 (match keyEnd with
                  | Some (S k) => S k
                  | _ => 16%nat
                  end)) in
    if (type =? 0x01) && (namespace =? 0) then
      let* nsIndex := getUint8 b (entryOffset + 24) in
      Ok (mkP (ensure_object (p_data st) key)
              (namespaces_set (p_namespaces st) (Z.to_nat nsIndex) key),
          (entryIdx + span)%nat)
    else
      let namespaceName := namespace_name (p_namespaces st) (Z.to_nat namespace) in
      let data := ensure_object (p_data st) namespaceName in
      let* value := parse_value b entryOffset type span in
      match value with
      | None => Ok (mkP data (p_namespaces st), S entryIdx)
      | Some value =>
          Ok (mkP (set_value data namespaceName key value) (p_namespaces st),
              (entryIdx + span)%nat)
      end.

(** The loop [for (let entryIdx = 1; entryIdx < ENTRIES_PER_PAGE; )].  An
    entry whose span byte is 0 does not advance, so the loop takes fuel;
    [None] is fuel exhausted. *)
Fixpoint parse_entries (fuel : nat) (b : list Z) (pageOffset entryIdx : nat)
    (st : pstate) : option (result pstate) :=
  if (ENTRIES_PER_PAGE <=? entryIdx)%nat then Some (Ok st)
  else
    match fuel with
    | O => None
    | S fuel' =>
        match parse_entry b pageOffset entryIdx st with
        | Throw e => Some (Throw e)
        | Ok (st', entryIdx') => parse_entries fuel' b pageOffset entryIdx' st'
        end
    end.

(** Body of the loop over the pages. *)
Definition parse_page (fuel : nat) (b : list Z) (pageIdx : nat) (st : pstate)
  : option (result pstate) :=
  let pageOffset := (pageIdx * PAGE_SIZE)%nat in
  match getUint32 b pageOffset with
  | Throw e => Some (Throw e)
  | Ok pageState =>
      if (pageState =? PAGE_STATE_EMPTY) || (pageState =? 0) then Some (Ok st)
      else parse_entries fuel b pageOffset 1 st
  end.

Fixpoint parse_pages (fuel : nat) (b : list Z) (pages : list nat) (st : pstate)
  : option (result pstate) :=
  match pages with
  | [] => Some (Ok st)
  | pageIdx :: pages' =>
      match parse_page fuel b pageIdx st with
      | Some (Ok st') => parse_pages fuel b pages' st'
      | r => r
      end
  end.

(** [parse(binary)]; [fuel] bounds the turns of the entry loop of each page. *)
Definition parse (fuel : nat) (binary : list Z) : option (result nvs_data) :=
  let numPages := (length binary / PAGE_SIZE)%nat in
  match parse_pages fuel binary (seq 0 numPages) (mkP [] (fun _ => None)) with
  | Some (Ok st) => Some (Ok (p_data st))
  | Some (Throw e) => Some (Throw e)
  | None => None
  end.

(** ** generateNVSFromConfig and parseNVSConfig *)





(** * Properties *)

Local Open Scope nat_scope.

Local Arguments Nat.leb : simpl never.
Local Arguments Nat.ltb : simpl never.
Local Arguments Nat.mul : simpl never.
Local Arguments Nat.div : simpl never.
Local Arguments Nat.sub : simpl never.

(** ** Buffers that agree away from a written region *)

Definition in_range (lo hi : nat) (o : nat) : Prop := lo ≤ o < hi.

Definition same_except (W : nat → Prop) (b b' : list Z) : Prop :=
  length b' = length b ∧ ∀ o, ¬ W o → b' !! o = b !! o.

Lemma same_except_refl W b : same_except W b b.
Proof. split; auto. Qed.

Lemma same_except_trans W b1 b2 b3 :
  same_except W b1 b2 → same_except W b2 b3 → same_except W b1 b3.
Proof.
  intros [L1 H1] [L2 H2]. split; [congruence|].
  intros o Ho. rewrite H2, H1; auto.
Qed.

Lemma same_except_weaken (W W' : nat → Prop) b b' :
  same_except W b b' → (∀ o, W o → W' o) → same_except W' b b'.
Proof. intros [L H] HW. split; [done|]. intros o Ho. apply H. auto. Qed.

Lemma same_except_length W b b' : same_except W b b' → length b' = length b.
Proof. by intros [? _]. Qed.

Lemma same_except_lookup W b b' o :
  same_except W b b' → ¬ W o → b' !! o = b !! o.
Proof. intros [_ H]. apply H. Qed.

Lemma same_except_load W b b' o :
  same_except W b b' → ¬ W o → load b' o = load b o.
Proof. intros H Ho. unfold load. by rewrite (same_except_lookup _ _ _ _ H Ho). Qed.

(** ** The primitives *)

Lemma store_same b i v : same_except (in_range i (S i)) b (store b i v).
Proof.
  unfold store, in_range. split; [apply length_insert|].
  intros o Ho. apply list_lookup_insert_ne. lia.
Qed.

Lemma store_lookup b i v :
  i < length b → store b i v !! i = Some (to_uint8 v).
Proof. intros. unfold store. by apply list_lookup_insert_eq. Qed.

Lemma splice_length (b src : list Z) off :
  off + length src ≤ length b →
  length (take off b ++ src ++ drop (off + length src) b) = length b.
Proof. intros. rewrite !length_app, length_take, length_drop. lia. Qed.

Lemma splice_lookup_lt (b src : list Z) off o :
  off + length src ≤ length b → o < off →
  (take off b ++ src ++ drop (off + length src) b) !! o = b !! o.
Proof.
  intros. rewrite lookup_app_l by (rewrite length_take; lia).
  by apply lookup_take_lt.
Qed.

Lemma splice_lookup_ge (b src : list Z) off o :
  off + length src ≤ length b → off + length src ≤ o →
  (take off b ++ src ++ drop (off + length src) b) !! o = b !! o.
Proof.
  intros. rewrite lookup_app_r by (rewrite length_take; lia).
  rewrite length_take, lookup_app_r by lia.
  rewrite lookup_drop. f_equal. lia.
Qed.

Lemma splice_lookup_in (b src : list Z) off j :
  off + length src ≤ length b → j < length src →
  (take off b ++ src ++ drop (off + length src) b) !! (off + j) = src !! j.
Proof.
  intros. rewrite lookup_app_r by (rewrite length_take; lia).
  rewrite length_take, lookup_app_l by lia. f_equal. lia.
Qed.

Lemma set_bytes_inv b src off b' :
  set_bytes b src off = Ok b' →
  off + length src ≤ length b ∧
  b' = take off b ++ src ++ drop (off + length src) b.
Proof.
  unfold set_bytes. destruct (Nat.leb_spec (off + length src) (length b)); [|done].
  intros [= <-]. done.
Qed.

Lemma set_bytes_ok b src off :
  off + length src ≤ length b → ∃ b', set_bytes b src off = Ok b'.
Proof.
  intros. unfold set_bytes.
  destruct (Nat.leb_spec (off + length src) (length b)); [eauto|lia].
Qed.

Lemma set_bytes_same b src off b' :
  set_bytes b src off = Ok b' →
  same_except (in_range off (off + length src)) b b'.
Proof.
  intros [Hle ->]%set_bytes_inv. unfold in_range.
  split; [by apply splice_length|].
  intros o Ho. destruct (decide (o < off)).
  - by apply splice_lookup_lt.
  - apply splice_lookup_ge; lia.
Qed.

Lemma set_bytes_lookup b src off b' j :
  set_bytes b src off = Ok b' → j < length src →
  b' !! (off + j) = src !! j.
Proof. intros [Hle ->]%set_bytes_inv ?. by apply splice_lookup_in. Qed.

Lemma set_bytes_bound b src off b' :
  set_bytes b src off = Ok b' → off + length src ≤ length b'.
Proof.
  intros H. pose proof (set_bytes_same _ _ _ _ H) as [-> _].
  by apply set_bytes_inv in H as [? _].
Qed.

Lemma length_le_bytes n v : length (le_bytes n v) = n.
Proof. revert v. induction n; intros; simpl; auto. Qed.

Lemma setUint16_same b off v b' :
  setUint16 b off v = Ok b' → same_except (in_range off (off + 2)) b b'.
Proof. intros H%set_bytes_same. by rewrite length_le_bytes in H. Qed.

Lemma setUint32_same b off v b' :
  setUint32 b off v = Ok b' → same_except (in_range off (off + 4)) b b'.
Proof. intros H%set_bytes_same. by rewrite length_le_bytes in H. Qed.

Lemma setUint32_ok b off v :
  off + 4 ≤ length b → ∃ b', setUint32 b off v = Ok b'.
Proof. intros. apply set_bytes_ok. by rewrite length_le_bytes. Qed.

Lemma setUint16_ok b off v :
  off + 2 ≤ length b → ∃ b', setUint16 b off v = Ok b'.
Proof. intros. apply set_bytes_ok. by rewrite length_le_bytes. Qed.

Lemma zero_fill_same n : ∀ b base from,
  same_except (in_range (base + from) (base + from + n)) b (zero_fill b base from n).
Proof.
  induction n as [|n IH]; intros; simpl; [apply same_except_refl|].
  apply same_except_trans with (store b (base + from) 0).
  - eapply same_except_weaken; [apply store_same|]. unfold in_range. lia.
  - eapply same_except_weaken; [apply IH|]. unfold in_range. lia.
Qed.

Lemma zero_fill_lookup n : ∀ b base from j,
  base + from + n ≤ length b → j < n →
  zero_fill b base from n !! (base + from + j) = Some 0%Z.
Proof.
  induction n as [|n IH]; intros b base from j Hlen Hj; [lia|]. simpl.
  pose proof (store_same b (base + from) 0) as Hs.
  destruct j as [|j].
  - rewrite (same_except_lookup _ _ _ _ (zero_fill_same n _ base (S from)))
      by (unfold in_range; lia).
    rewrite Nat.add_0_r. apply store_lookup. lia.
  - replace (base + from + S j) with (base + S from + j) by lia.
    apply IH; [|lia]. rewrite (same_except_length _ _ _ Hs). lia.
Qed.

Lemma write_chunks_same n : ∀ b offset data i dOff b',
  write_chunks b offset data i dOff n = Ok b' →
  same_except (in_range (offset + i * ENTRY_SIZE) (offset + (i + n) * ENTRY_SIZE)) b b'.
Proof.
  induction n as [|n IH]; intros b offset data i dOff b' H; simpl in H.
  - injection H as <-. apply same_except_refl.
  - destruct (set_bytes b _ _) as [b1|] eqn:E; [|done]. simpl in H.
    eapply same_except_trans.
    + eapply same_except_weaken; [apply (set_bytes_same _ _ _ _ E)|].
      unfold in_range, slice, ENTRY_SIZE. intros o. rewrite length_take. lia.
    + eapply same_except_weaken; [apply (IH _ _ _ _ _ _ H)|].
      unfold in_range, ENTRY_SIZE. lia.
Qed.

Lemma slice_lookup b from to j :
  j < to - from → slice b from to !! j = b !! (from + j).
Proof. intros. unfold slice. by rewrite lookup_take_lt, lookup_drop. Qed.

Lemma slice_lookup_ge b from to j :
  to - from ≤ j → slice b from to !! j = None.
Proof. intros. unfold slice. by apply lookup_take_ge. Qed.


Lemma slice_agree b b' from to :
  (∀ o, in_range from to o → b' !! o = b !! o) →
  slice b' from to = slice b from to.
Proof.
  intros H. apply list_eq. intros j.
  destruct (decide (j < to - from)).
  - rewrite !slice_lookup by done. apply H. unfold in_range. lia.
  - rewrite !slice_lookup_ge by lia. done.
Qed.

Lemma crc_window_agree b b' off :
  (∀ o, in_range off (off + 32) o → ¬ in_range (off + 4) (off + 8) o →
        b' !! o = b !! o) →
  crc_window b' off = crc_window b off.
Proof.
  intros H. unfold crc_window, load.
  rewrite !(H off), !(H (off + 1)), !(H (off + 2)), !(H (off + 3))
    by (unfold in_range; lia).
  rewrite (slice_agree b b' (off + 8)), (slice_agree b b' (off + 24)); [done| |];
    intros o Ho; apply H; unfold in_range in *; lia.
Qed.

Lemma write_chunks_lookup n : ∀ b offset data i dOff b' j,
  write_chunks b offset data i dOff n = Ok b' →
  dOff ≤ j → j < length data → j < dOff + n * ENTRY_SIZE →
  b' !! (offset + i * ENTRY_SIZE + (j - dOff)) = data !! j.
Proof.
  induction n as [|n IH]; intros b offset data i dOff b' j H Hlo Hlen Hhi;
    simpl in H; [lia|].
  destruct (set_bytes b _ _) as [b1|] eqn:E; [|done]. simpl in H.
  unfold ENTRY_SIZE in *.
  destruct (decide (j < dOff + 32)) as [Hj|Hj].
  - rewrite (same_except_lookup _ _ _ _ (write_chunks_same _ _ _ _ _ _ _ H))
      by (unfold in_range, ENTRY_SIZE; lia).
    rewrite (set_bytes_lookup _ _ _ _ _ E).
    + rewrite slice_lookup by lia. f_equal. lia.
    + unfold slice. rewrite length_take, length_drop. lia.
  - replace (offset + i * 32 + (j - dOff))
      with (offset + S i * 32 + (j - (dOff + 32))) by lia.
    eapply IH; eauto; lia.
Qed.

Lemma write_chunks_ok n : ∀ b offset data i dOff,
  offset + (i + n) * ENTRY_SIZE ≤ length b →
  ∃ b', write_chunks b offset data i dOff n = Ok b'.
Proof.
  induction n as [|n IH]; intros b offset data i dOff Hlen; simpl; [eauto|].
  unfold ENTRY_SIZE in *.
  destruct (set_bytes_ok b (slice data dOff (dOff + 32)) (offset + i * 32))
    as [b1 E].
  { unfold slice. rewrite length_take. lia. }
  rewrite E. simpl. apply IH.
  rewrite (same_except_length _ _ _ (set_bytes_same _ _ _ _ E)). lia.
Qed.

(** ** writeEntry *)

(** The key field of a slot: the first 15 bytes of the key, zero-padded. *)
Definition key_field (key : string) : list Z :=
  let keyBytes := text_encode (substring0 15 key) in
  keyBytes ++ replicate (16 - length keyBytes) 0%Z.

Lemma substring0_chars n : ∀ s,
  list_ascii_of_string (substring0 n s) = take n (list_ascii_of_string s).
Proof.
  unfold substring0. induction n as [|n IH]; intros [|c s]; simpl; auto.
  by rewrite IH.
Qed.

Lemma text_encode_substring0 n s :
  text_encode (substring0 n s) = take n (text_encode s).
Proof. unfold text_encode. by rewrite substring0_chars, fmap_take. Qed.

Lemma length_key_bytes key : length (text_encode (substring0 15 key)) ≤ 15.
Proof. rewrite text_encode_substring0, length_take. lia. Qed.

Lemma length_key_field key : length (key_field key) = 16.
Proof.
  unfold key_field. pose proof (length_key_bytes key).
  rewrite length_app, length_replicate. lia.
Qed.

Definition header_stores (b : list Z) (off : nat) (e : Entry) : list Z :=
  store (store (store (store b (off + 0) (Z.of_nat (e_namespace e)))
                      (off + 1) (e_type e))
               (off + 2) (Z.of_nat (e_span e)))
        (off + 3) 255%Z.

Lemma header_stores_same b off e :
  same_except (in_range off (off + 4)) b (header_stores b off e).
Proof.
  unfold header_stores.
  repeat (eapply same_except_trans;
          [|eapply same_except_weaken; [apply store_same|unfold in_range; lia]]).
  apply same_except_refl.
Qed.

Lemma writeEntry_inv b p i e b' :
  writeEntry b p i e = Ok b' →
  let off := entry_offset p i in
  let keyBytes := text_encode (substring0 15 (e_key e)) in
  ∃ b1 b3,
    set_bytes (header_stores b off e) keyBytes (off + 8) = Ok b1 ∧
    (let b2 := zero_fill b1 (off + 8) (length keyBytes) (16 - length keyBytes) in
     if is_str_or_blob (e_type e)
     then ∃ b2',
         setUint16 b2 (off + 24) (Z.of_nat (length (e_data e))) = Ok b2' ∧
         write_chunks b2' off (e_data e) 1 0 (e_span e - 1) = Ok b3
     else set_bytes b2 (e_data e) (off + 24) = Ok b3) ∧
    setUint32 b3 (off + 4) (calculateCRC32 (crc_window b3 off)) = Ok b'.
Proof.
  unfold writeEntry. fold (header_stores b (entry_offset p i) e).
  intros H. cbv zeta.
  destruct (set_bytes (header_stores _ _ _) _ _) as [b1|] eqn:E1; [|done].
  simpl in H. exists b1.
  destruct (is_str_or_blob (e_type e)).
  - destruct (setUint16 _ _ _) as [b2'|] eqn:E2; [|done]. simpl in H.
    destruct (write_chunks _ _ _ _ _ _) as [b3|] eqn:E3; [|done]. simpl in H.
    exists b3. eauto.
  - destruct (set_bytes (zero_fill _ _ _ _) _ _) as [b3|] eqn:E3; [|done].
    simpl in H. exists b3. eauto.
Qed.

(** What [createEntry] and the namespace entries of [generate] satisfy. *)
Definition entry_bounded (e : Entry) : Prop :=
  1 ≤ e_span e ∧ (is_str_or_blob (e_type e) = false → length (e_data e) ≤ 8).

(** The first slot of an entry as [writeEntry] leaves it. *)
Record head_spec (b : list Z) (off : nat) (e : Entry) : Prop := mkHead {
  hs_namespace : b !! off = Some (to_uint8 (Z.of_nat (e_namespace e)));
  hs_type : b !! (off + 1) = Some (to_uint8 (e_type e));
  hs_span : b !! (off + 2) = Some (to_uint8 (Z.of_nat (e_span e)));
  hs_reserved : b !! (off + 3) = Some 255%Z;
  hs_key : ∀ j, j < 16 → b !! (off + 8 + j) = key_field (e_key e) !! j;
  hs_data :
    if is_str_or_blob (e_type e)
    then ∀ j, j < 2 →
         b !! (off + 24 + j)
         = le_bytes 2 (to_uint16 (Z.of_nat (length (e_data e)))) !! j
    else ∀ j, j < length (e_data e) → j < 8 →
         b !! (off + 24 + j) = e_data e !! j;
  hs_crc : ∀ j, j < 4 →
    b !! (off + 4 + j)
    = le_bytes 4 (to_uint32 (calculateCRC32 (crc_window b off))) !! j
}.

(** The continuation slots of a string entry hold its bytes in order. *)
Definition payload_spec (b : list Z) (off : nat) (e : Entry) : Prop :=
  is_str_or_blob (e_type e) = true →
  ∀ j, j < length (e_data e) → b !! (off + 32 + j) = e_data e !! j.

Ltac frame_step lem :=
  eapply same_except_trans;
  [|eapply same_except_weaken; [eapply lem; eassumption|unfold in_range; lia]].

Lemma writeEntry_same b p i e b' :
  writeEntry b p i e = Ok b' → entry_bounded e →
  same_except
    (in_range (entry_offset p i) (entry_offset p i + 32 * e_span e)) b b'.
Proof.
  intros H [Hspan Hdata]. apply writeEntry_inv in H. cbv zeta in H.
  destruct H as (b1 & b3 & E1 & E2 & E3).
  set (off := entry_offset p i) in *.
  pose proof (length_key_bytes (e_key e)) as Hk.
  frame_step setUint32_same.
  assert (same_except (in_range off (off + 24)) b
            (zero_fill b1 (off + 8) (length (text_encode (substring0 15 (e_key e))))
               (16 - length (text_encode (substring0 15 (e_key e)))))) as Hz.
  { eapply same_except_trans;
      [|eapply same_except_weaken; [apply zero_fill_same|unfold in_range; lia]].
    frame_step set_bytes_same.
    eapply same_except_weaken; [apply header_stores_same|unfold in_range; lia]. }
  destruct (is_str_or_blob (e_type e)).
  - destruct E2 as (b2' & E2 & E2').
    eapply same_except_trans;
      [|eapply same_except_weaken;
         [eapply write_chunks_same; eassumption
         |unfold in_range, ENTRY_SIZE; lia]].
    frame_step setUint16_same.
    eapply same_except_weaken; [apply Hz|unfold in_range; lia].
  - specialize (Hdata eq_refl).
    frame_step set_bytes_same.
    eapply same_except_weaken; [apply Hz|unfold in_range; lia].
Qed.

Lemma writeEntry_length b p i e b' :
  writeEntry b p i e = Ok b' → length b' = length b.
Proof.
  intros H. apply writeEntry_inv in H. cbv zeta in H.
  destruct H as (b1 & b3 & E1 & E2 & E3).
  rewrite (same_except_length _ _ _ (setUint32_same _ _ _ _ E3)).
  assert (length b1 = length b) as L1.
  { rewrite (same_except_length _ _ _ (set_bytes_same _ _ _ _ E1)).
    apply (same_except_length _ _ _ (header_stores_same _ _ _)). }
  destruct (is_str_or_blob (e_type e)).
  - destruct E2 as (b2' & E2 & E2').
    rewrite (same_except_length _ _ _ (write_chunks_same _ _ _ _ _ _ _ E2')).
    rewrite (same_except_length _ _ _ (setUint16_same _ _ _ _ E2)).
    by rewrite (same_except_length _ _ _ (zero_fill_same _ _ _ _)).
  - rewrite (same_except_length _ _ _ (set_bytes_same _ _ _ _ E2)).
    by rewrite (same_except_length _ _ _ (zero_fill_same _ _ _ _)).
Qed.

Lemma header_stores_lookup b off e :
  off + 4 ≤ length b →
  let h := header_stores b off e in
  h !! off = Some (to_uint8 (Z.of_nat (e_namespace e))) ∧
  h !! (off + 1) = Some (to_uint8 (e_type e)) ∧
  h !! (off + 2) = Some (to_uint8 (Z.of_nat (e_span e))) ∧
  h !! (off + 3) = Some 255%Z.
Proof.
  intros Hlen. unfold header_stores. cbv zeta.
  set (s0 := store b (off + 0) _). set (s1 := store s0 (off + 1) _).
  set (s2 := store s1 (off + 2) _).
  assert (length s0 = length b) as L0 by apply (same_except_length _ _ _ (store_same _ _ _)).
  assert (length s1 = length b) as L1
    by (unfold s1; rewrite (same_except_length _ _ _ (store_same _ _ _)); done).
  assert (length s2 = length b) as L2
    by (unfold s2; rewrite (same_except_length _ _ _ (store_same _ _ _)); done).
  repeat split.
  - rewrite (same_except_lookup _ _ _ _ (store_same s2 _ _)) by (unfold in_range; lia).
    unfold s2. rewrite (same_except_lookup _ _ _ _ (store_same s1 _ _)) by (unfold in_range; lia).
    unfold s1. rewrite (same_except_lookup _ _ _ _ (store_same s0 _ _)) by (unfold in_range; lia).
    unfold s0. rewrite Nat.add_0_r. apply store_lookup. lia.
  - rewrite (same_except_lookup _ _ _ _ (store_same s2 _ _)) by (unfold in_range; lia).
    unfold s2. rewrite (same_except_lookup _ _ _ _ (store_same s1 _ _)) by (unfold in_range; lia).
    unfold s1. apply store_lookup. lia.
  - rewrite (same_except_lookup _ _ _ _ (store_same s2 _ _)) by (unfold in_range; lia).
    unfold s2. apply store_lookup. lia.
  - apply store_lookup. lia.
Qed.

Lemma key_field_lookup key j :
  let keyBytes := text_encode (substring0 15 key) in
  key_field key !! j =
    if decide (j < length keyBytes) then keyBytes !! j
    else if decide (j < 16) then Some 0%Z else None.
Proof.
  cbv zeta. unfold key_field. pose proof (length_key_bytes key).
  destruct (decide (j < _)).
  - by rewrite lookup_app_l.
  - rewrite lookup_app_r by lia. destruct (decide (j < 16)).
    + apply lookup_replicate_2. lia.
    + apply lookup_ge_None_2. rewrite length_replicate. lia.
Qed.

Lemma writeEntry_head b p i e b' :
  writeEntry b p i e = Ok b' → head_spec b' (entry_offset p i) e.
Proof.
  intros H. apply writeEntry_inv in H. cbv zeta in H.
  destruct H as (b1 & b3 & E1 & E2 & E3).
  set (off := entry_offset p i) in *.
  set (kb := text_encode (substring0 15 (e_key e))) in *.
  set (b2 := zero_fill b1 (off + 8) (length kb) (16 - length kb)) in *.
  pose proof (length_key_bytes (e_key e)) as Hk. fold kb in Hk.
  pose proof (header_stores_same b off e) as F0.
  pose proof (set_bytes_same _ _ _ _ E1) as F1.
  pose proof (zero_fill_same (16 - length kb) b1 (off + 8) (length kb)) as F2.
  fold b2 in F2.
  pose proof (setUint32_same _ _ _ _ E3) as F4.
  assert (length b2 = length b) as L2.
  { rewrite (same_except_length _ _ _ F2), (same_except_length _ _ _ F1).
    apply (same_except_length _ _ _ F0). }
  (* the data phase leaves [off, off+24) alone and needs off + 24 in range *)
  assert (off + 24 ≤ length b ∧
          (∀ o, o < off + 24 → b3 !! o = b2 !! o) ∧
          if is_str_or_blob (e_type e)
          then ∀ j, j < 2 →
               b3 !! (off + 24 + j)
               = le_bytes 2 (to_uint16 (Z.of_nat (length (e_data e)))) !! j
          else ∀ j, j < length (e_data e) → b3 !! (off + 24 + j) = e_data e !! j)
    as (Hlen & T3 & D3).
  { destruct (is_str_or_blob (e_type e)).
    - destruct E2 as (b2' & E2 & E2').
      pose proof (set_bytes_bound _ _ _ _ E2) as Hb.
      rewrite length_le_bytes in Hb.
      pose proof (setUint16_same _ _ _ _ E2) as G1.
      pose proof (write_chunks_same _ _ _ _ _ _ _ E2') as G2.
      rewrite (same_except_length _ _ _ G1), L2 in Hb.
      split; [lia|]. split.
      + intros o Ho.
        rewrite (same_except_lookup _ _ _ _ G2) by (unfold in_range, ENTRY_SIZE; lia).
        apply (same_except_lookup _ _ _ _ G1). unfold in_range. lia.
      + intros j Hj.
        rewrite (same_except_lookup _ _ _ _ G2) by (unfold in_range, ENTRY_SIZE; lia).
        by apply (set_bytes_lookup _ _ _ _ _ E2); rewrite length_le_bytes.
    - pose proof (set_bytes_bound _ _ _ _ E2) as Hb.
      pose proof (set_bytes_same _ _ _ _ E2) as G1.
      rewrite (same_except_length _ _ _ G1), L2 in Hb.
      split; [lia|]. split.
      + intros o Ho. apply (same_except_lookup _ _ _ _ G1). unfold in_range. lia.
      + intros j Hj. by apply (set_bytes_lookup _ _ _ _ _ E2). }
  assert (∀ o, ¬ in_range (off + 4) (off + 8) o → b' !! o = b3 !! o) as T4.
  { intros o Ho. apply (same_except_lookup _ _ _ _ F4). unfold in_range in *. lia. }
  destruct (header_stores_lookup b off e ltac:(lia)) as (H0 & H1 & H2 & H3).
  assert (∀ o, o < off + 8 → b2 !! o = header_stores b off e !! o) as T2.
  { intros o Ho.
    rewrite (same_except_lookup _ _ _ _ F2) by (unfold in_range; lia).
    apply (same_except_lookup _ _ _ _ F1). unfold in_range. lia. }
  split.
  - rewrite T4, T3, T2 by (unfold in_range; lia). done.
  - rewrite T4, T3, T2 by (unfold in_range; lia). done.
  - rewrite T4, T3, T2 by (unfold in_range; lia). done.
  - rewrite T4, T3, T2 by (unfold in_range; lia). done.
  - intros j Hj. rewrite T4, T3 by (unfold in_range; lia).
    rewrite key_field_lookup. fold kb. destruct (decide (j < length kb)).
    + rewrite (same_except_lookup _ _ _ _ F2) by (unfold in_range; lia).
      by apply (set_bytes_lookup _ _ _ _ _ E1).
    + rewrite decide_True by done.
      replace (off + 8 + j) with (off + 8 + length kb + (j - length kb)) by lia.
      apply zero_fill_lookup; [|lia].
      rewrite (same_except_length _ _ _ F1), (same_except_length _ _ _ F0). lia.
  - destruct (is_str_or_blob (e_type e)).
    + intros j Hj. rewrite T4 by (unfold in_range; lia). by apply D3.
    + intros j Hj _.
      rewrite T4 by (unfold in_range; lia). by apply D3.
  - intros j Hj.
    rewrite (crc_window_agree b3 b' off) by (intros; by apply T4).
    by apply (set_bytes_lookup _ _ _ _ _ E3); rewrite length_le_bytes.
Qed.

Lemma writeEntry_payload b p i e b' :
  writeEntry b p i e = Ok b' →
  (is_str_or_blob (e_type e) = true →
   length (e_data e) ≤ 32 * (e_span e - 1)) →
  payload_spec b' (entry_offset p i) e.
Proof.
  intros H Hfit Hstr j Hj. specialize (Hfit Hstr).
  apply writeEntry_inv in H. cbv zeta in H.
  destruct H as (b1 & b3 & E1 & E2 & E3). rewrite Hstr in E2.
  destruct E2 as (b2' & E2 & E2').
  rewrite (same_except_lookup _ _ _ _ (setUint32_same _ _ _ _ E3))
    by (unfold in_range; lia).
  pose proof (write_chunks_lookup _ _ _ _ _ _ _ j E2') as Hw.
  unfold ENTRY_SIZE in Hw. rewrite <- Hw by lia. f_equal. lia.
Qed.

Lemma writeEntry_ok b p i e :
  entry_bounded e →
  entry_offset p i + 32 * e_span e ≤ length b →
  ∃ b', writeEntry b p i e = Ok b'.
Proof.
  intros [Hspan Hdata] Hlen. unfold writeEntry.
  fold (header_stores b (entry_offset p i) e).
  set (off := entry_offset p i) in *.
  set (kb := text_encode (substring0 15 (e_key e))).
  pose proof (length_key_bytes (e_key e)) as Hk. fold kb in Hk.
  pose proof (same_except_length _ _ _ (header_stores_same b off e)) as L0.
  destruct (set_bytes_ok (header_stores b off e) kb (off + 8)) as [b1 E1]; [lia|].
  rewrite E1. simpl.
  pose proof (same_except_length _ _ _ (set_bytes_same _ _ _ _ E1)) as L1.
  set (b2 := zero_fill b1 (off + 8) (length kb) (16 - length kb)).
  pose proof (same_except_length _ _ _
                (zero_fill_same (16 - length kb) b1 (off + 8) (length kb))) as L2.
  fold b2 in L2.
  destruct (is_str_or_blob (e_type e)) eqn:Et.
  - destruct (setUint16_ok b2 (off + 24) (Z.of_nat (length (e_data e))))
      as [b2' E2]; [lia|].
    rewrite E2. simpl.
    pose proof (same_except_length _ _ _ (setUint16_same _ _ _ _ E2)) as L2'.
    destruct (write_chunks_ok (e_span e - 1) b2' off (e_data e) 1 0) as [b3 E3].
    { unfold ENTRY_SIZE. lia. }
    rewrite E3. simpl. apply setUint32_ok.
    rewrite (same_except_length _ _ _ (write_chunks_same _ _ _ _ _ _ _ E3)). lia.
  - specialize (Hdata eq_refl).
    destruct (set_bytes_ok b2 (e_data e) (off + 24)) as [b3 E3]; [lia|].
    rewrite E3. simpl. apply setUint32_ok.
    rewrite (same_except_length _ _ _ (set_bytes_same _ _ _ _ E3)). lia.
Qed.

Lemma head_spec_agree b b' off e :
  (∀ o, in_range off (off + 32) o → b' !! o = b !! o) →
  head_spec b off e → head_spec b' off e.
Proof.
  intros H [H0 H1 H2 H3 Hk Hd Hc].
  assert (∀ o x, in_range off (off + 32) o → b !! o = x → b' !! o = x) as T.
  { intros o x Ho <-. by apply H. }
  split; try (apply T; [unfold in_range; lia|done]).
  - intros j Hj. apply T; [unfold in_range; lia|auto].
  - destruct (is_str_or_blob (e_type e)).
    + intros j Hj. apply T; [unfold in_range; lia|auto].
    + intros j Hj Hj8. apply T; [unfold in_range; lia|auto].
  - intros j Hj. rewrite (crc_window_agree b b' off) by (intros; by apply H).
    apply T; [unfold in_range; lia|auto].
Qed.

Lemma payload_spec_agree b b' off e :
  (∀ o, in_range (off + 32) (off + 32 + length (e_data e)) o → b' !! o = b !! o) →
  payload_spec b off e → payload_spec b' off e.
Proof.
  intros H Hp Hstr j Hj. rewrite H by (unfold in_range; lia). by apply Hp.
Qed.

(** ** finalizePage *)

Definition page_state (b : list Z) (pageIdx : nat) : result Z :=
  getUint32 b (pageIdx * PAGE_SIZE).

Lemma finalizePage_same b p n b' :
  finalizePage b p n = Ok b' →
  same_except (in_range (p * PAGE_SIZE) (p * PAGE_SIZE + 32)) b b'.
Proof.
  unfold finalizePage. intros H.
  destruct (setUint32 b _ _) as [b1|] eqn:E1; [|done]. simpl in H.
  destruct (setUint32 b1 _ _) as [b2|] eqn:E2; [|done]. simpl in H.
  destruct (setUint32 b2 _ _) as [b3|] eqn:E3; [|done]. simpl in H.
  frame_step setUint32_same. frame_step setUint32_same.
  frame_step setUint32_same.
  eapply same_except_weaken; [eapply setUint32_same; eassumption|].
  unfold in_range; lia.
Qed.

Lemma finalizePage_ok b p n :
  p * PAGE_SIZE + 32 ≤ length b → ∃ b', finalizePage b p n = Ok b'.
Proof.
  intros Hlen. unfold finalizePage.
  destruct (setUint32_ok b (p * PAGE_SIZE + 0) PAGE_STATE_ACTIVE) as [b1 E1]; [lia|].
  rewrite E1. simpl.
  pose proof (same_except_length _ _ _ (setUint32_same _ _ _ _ E1)) as L1.
  destruct (setUint32_ok b1 (p * PAGE_SIZE + 4) (Z.of_nat p)) as [b2 E2]; [lia|].
  rewrite E2. simpl.
  pose proof (same_except_length _ _ _ (setUint32_same _ _ _ _ E2)) as L2.
  destruct (setUint32_ok b2 (p * PAGE_SIZE + 8) 4294967295) as [b3 E3]; [lia|].
  rewrite E3. simpl.
  pose proof (same_except_length _ _ _ (setUint32_same _ _ _ _ E3)) as L3.
  apply setUint32_ok. lia.
Qed.

Lemma read_bytes_ok b off n :
  off + n ≤ length b → read_bytes b off n = Ok (slice b off (off + n)).
Proof.
  intros. unfold read_bytes, slice.
  destruct (Nat.leb_spec (off + n) (length b)); [|lia].
  do 3 f_equal. lia.
Qed.

Lemma slice_eq_lookup b off l :
  (∀ j, j < length l → b !! (off + j) = l !! j) →
  slice b off (off + length l) = l.
Proof.
  intros H. apply list_eq. intros j. destruct (decide (j < length l)).
  - rewrite slice_lookup by lia. auto.
  - rewrite slice_lookup_ge by lia. symmetry. apply lookup_ge_None_2. lia.
Qed.

Lemma finalizePage_state b p n b' :
  finalizePage b p n = Ok b' → page_state b' p = Ok PAGE_STATE_ACTIVE.
Proof.
  unfold finalizePage. intros H.
  destruct (setUint32 b _ _) as [b1|] eqn:E1; [|done]. simpl in H.
  destruct (setUint32 b1 _ _) as [b2|] eqn:E2; [|done]. simpl in H.
  destruct (setUint32 b2 _ _) as [b3|] eqn:E3; [|done]. simpl in H.
  pose proof (setUint32_same _ _ _ _ E2) as F2.
  pose proof (setUint32_same _ _ _ _ E3) as F3.
  pose proof (setUint32_same _ _ _ _ H) as F4.
  pose proof (set_bytes_bound _ _ _ _ H) as Hb. rewrite length_le_bytes in Hb.
  unfold page_state, getUint32, getUint.
  rewrite read_bytes_ok by lia. cbn [rbind].
  assert (slice b' (p * PAGE_SIZE) (p * PAGE_SIZE + 4) = [254; 255; 255; 255]%Z)
    as ->; [|done].
  apply (slice_eq_lookup b' (p * PAGE_SIZE) [254; 255; 255; 255]%Z).
  intros j Hj. cbn [length] in Hj.
  rewrite (same_except_lookup _ _ _ _ F4) by (unfold in_range; lia).
  rewrite (same_except_lookup _ _ _ _ F3) by (unfold in_range; lia).
  rewrite (same_except_lookup _ _ _ _ F2) by (unfold in_range; lia).
  replace (p * PAGE_SIZE + j) with (p * PAGE_SIZE + 0 + j) by lia.
  by apply (set_bytes_lookup _ _ _ _ _ E1); rewrite length_le_bytes.
Qed.

Lemma page_state_agree b b' p :
  length b' = length b →
  (∀ o, in_range (p * PAGE_SIZE) (p * PAGE_SIZE + 4) o → b' !! o = b !! o) →
  page_state b' p = page_state b p.
Proof.
  intros L H. unfold page_state, getUint32, getUint, read_bytes. rewrite L.
  destruct (_ <=? _); [|done]. cbn [rbind]. do 2 f_equal.
  apply list_eq. intros j. rewrite !lookup_take, !lookup_drop.
  case_decide; [|done]. apply H. unfold in_range. lia.
Qed.

Lemma write_bitmap_same b p :
  same_except (in_range (bitmap_offset p) (bitmap_offset p + 2)) b (write_bitmap b p).
Proof.
  unfold write_bitmap.
  apply same_except_trans with (store b (bitmap_offset p) 170).
  - eapply same_except_weaken; [apply store_same|unfold in_range; lia].
  - eapply same_except_weaken; [apply store_same|unfold in_range; lia].
Qed.

(** ** createEntry *)

Lemma ceil_div_32 a : a ≤ 32 * ceil_div a 32.
Proof.
  unfold ceil_div. pose proof (Nat.div_mod_eq (a + 32 - 1) 32).
  pose proof (Nat.mod_upper_bound (a + 32 - 1) 32). lia.
Qed.

Lemma createEntry_inv ns key v e :
  createEntry ns key v = Ok e →
  e_namespace e = ns ∧ e_key e = key ∧
  ((∃ s, v = VStr s ∧ e_type e = TYPE_STR ∧
         e_data e = text_encode s ++ [0%Z] ∧
         e_span e = 1 + ceil_div (length (e_data e)) 32) ∨
   (∃ z, v = VInt z ∧ e_span e = 1 ∧
         (((0 ≤ z ≤ 255)%Z ∧ e_type e = TYPE_U8 ∧ e_data e = [to_uint8 z]) ∨
          ((256 ≤ z ≤ 65535)%Z ∧ e_type e = TYPE_U16 ∧
           e_data e = le_bytes 2 (to_uint16 z)) ∨
          ((z < 0 ∨ 65535 < z)%Z ∧ e_type e = TYPE_U32 ∧
           e_data e = le_bytes 4 (to_uint32 z))))).
Proof.
  unfold createEntry. destruct v as [s|z| | |]; cbn [rbind]; try done.
  - intros [= <-]. cbn. split; [done|]. split; [done|]. left. eauto.
  - destruct (Z.leb_spec 0 z) as [H0|H0], (Z.leb_spec z 255) as [H1|H1],
      (Z.leb_spec z 65535) as [H2|H2];
      cbn [andb rbind fst snd]; intros [= <-]; cbn;
      (split; [done|]); (split; [done|]); right; exists z;
      (split; [done|]); (split; [done|]);
      first [ left; split; [lia|done]
            | right; left; split; [lia|done]
            | right; right; split; [lia|done] ].
Qed.

Lemma createEntry_bounded ns key v e :
  createEntry ns key v = Ok e →
  entry_bounded e ∧
  (is_str_or_blob (e_type e) = true → length (e_data e) ≤ 32 * (e_span e - 1)).
Proof.
  intros H. apply createEntry_inv in H as (_ & _ & H). unfold entry_bounded.
  destruct H as [(s & _ & Ht & Hd & Hs)|(z & _ & Hs & H)].
  - rewrite Ht, Hs. split; [split; [lia|intros Hf; vm_compute in Hf; done]|].
    intros _. pose proof (ceil_div_32 (length (e_data e))). lia.
  - rewrite Hs.
    destruct H as [(_ & Ht & Hd)|[(_ & Ht & Hd)|(_ & Ht & Hd)]];
      rewrite Ht, Hd;
      (split; [split; [lia|intros _; rewrite ?length_le_bytes; cbn; lia]
              |intros Hf; vm_compute in Hf; done]).
Qed.

(** ** The entry stream of [generate]

    The two nested loops of [generate] write one entry per namespace with
    properties and one per property; [items_of] lists them in that order,
    so that [generate] is a single fold over the stream. *)

Inductive item : Type :=
  | ItemNs (name : string) (nsIndex : nat)
  | ItemKv (nsIndex : nat) (key : string) (value : jsvalue).

Definition ns_entry (name : string) (nsIndex : nat) : Entry :=
  mkEntry 0 1 1 name [to_uint8 (Z.of_nat nsIndex)].

Definition item_entry (it : item) : result Entry :=
  match it with
  | ItemNs name nsIndex => Ok (ns_entry name nsIndex)
  | ItemKv nsIndex key value => createEntry nsIndex key value
  end.

Definition items_of_ns (namespaceMap : jsobject nat)
    (ns : string * jsobject jsvalue) : list item :=
  if 0 <? length (snd ns)
  then
    let nsIndex := default 0 (obj_get namespaceMap (fst ns)) in
    ItemNs (fst ns) nsIndex
    :: map (λ kv, ItemKv nsIndex (fst kv) (snd kv)) (snd ns)
  else [].

Definition items_of (namespaceMap : jsobject nat) (data : nvs_data) : list item :=
  flat_map (items_of_ns namespaceMap) data.

Definition generate_item (numPages : nat) (st : gstate) (it : item)
  : result gstate :=
  match it with
  | ItemNs name nsIndex =>
      let* b := writeEntry (g_binary st) (g_page st) (g_entry st)
                  (ns_entry name nsIndex) in
      Ok (mkG b (g_page st) (S (g_entry st)))
  | ItemKv nsIndex key value => generate_kv numPages nsIndex st (key, value)
  end.

Lemma foldM_app {S A} (f : S → A → result S) l1 l2 s :
  foldM f (l1 ++ l2) s = (let* s' := foldM f l1 s in foldM f l2 s').
Proof.
  revert s. induction l1 as [|a l1 IH]; intros s; cbn; [done|].
  destruct (f s a); cbn; auto.
Qed.

Lemma foldM_map {S A B} (f : S → B → result S) (g : A → B) l s :
  foldM f (map g l) s = foldM (λ s a, f s (g a)) l s.
Proof.
  revert s. induction l as [|a l IH]; intros s; cbn; [done|].
  destruct (f s (g a)); cbn; auto.
Qed.

Lemma foldM_ext {S A} (f g : S → A → result S) l s :
  (∀ s a, f s a = g s a) → foldM f l s = foldM g l s.
Proof.
  intros H. revert s. induction l as [|a l IH]; intros s; cbn; [done|].
  rewrite H. destruct (g s a); cbn; auto.
Qed.

Lemma generate_ns_items numPages namespaceMap st ns :
  generate_ns numPages namespaceMap st ns
  = foldM (generate_item numPages) (items_of_ns namespaceMap ns) st.
Proof.
  unfold generate_ns, items_of_ns. destruct (0 <? length (snd ns)); [|done].
  cbn [foldM generate_item]. fold (ns_entry (fst ns)
    (default 0 (obj_get namespaceMap (fst ns)))).
  destruct (writeEntry _ _ _ _) as [b|]; cbn [rbind]; [|done].
  rewrite foldM_map. apply foldM_ext. intros s [k v]. done.
Qed.

Lemma generate_items numPages namespaceMap data st :
  foldM (generate_ns numPages namespaceMap) data st
  = foldM (generate_item numPages) (items_of namespaceMap data) st.
Proof.
  revert st. induction data as [|ns data IH]; intros st; cbn; [done|].
  rewrite foldM_app, generate_ns_items.
  destruct (foldM _ (items_of_ns _ _) _); cbn; auto.
Qed.

(** ** Where the entries go

    [layout] replays the cursor of [generate] alone: the page and slot at
    which each entry of the stream starts. *)

Definition next_cursor (it : item) (e : Entry) (p i : nat) : nat * nat :=
  match it with
  | ItemNs _ _ => (p, S i)
  | ItemKv _ _ _ =>
      if ENTRIES_PER_PAGE <=? i + e_span e then (S p, 1) else (p, i + e_span e)
  end.

Definition placement : Type := nat * nat * Entry.

Fixpoint layout (its : list item) (p i : nat) : list placement :=
  match its with
  | [] => []
  | it :: its' =>
      match item_entry it with
      | Ok e =>
          (p, i, e)
          :: layout its' (fst (next_cursor it e p i)) (snd (next_cursor it e p i))
      | Throw _ => []
      end
  end.

Fixpoint final_cursor (its : list item) (p i : nat) : nat * nat :=
  match its with
  | [] => (p, i)
  | it :: its' =>
      match item_entry it with
      | Ok e =>
          final_cursor its' (fst (next_cursor it e p i)) (snd (next_cursor it e p i))
      | Throw _ => (p, i)
      end
  end.

(** Every namespace entry of the stream is followed by a property. *)
Fixpoint paired (its : list item) : Prop :=
  match its with
  | [] => True
  | ItemNs _ _ :: its' =>
      match its' with ItemKv _ _ _ :: _ => True | _ => False end ∧ paired its'
  | ItemKv _ _ _ :: its' => paired its'
  end.

(** The slot index [generate] is at before it writes the head of [its]. *)
Definition cursor_ok (its : list item) (i : nat) : Prop :=
  1 ≤ i ∧ i ≤ match its with ItemKv _ _ _ :: _ => 126 | _ => 125 end.

Lemma cursor_ok_le its i : cursor_ok its i → 1 ≤ i ≤ 126.
Proof. unfold cursor_ok. destruct its as [|[]]; lia. Qed.

Lemma item_entry_bounded it e : item_entry it = Ok e → entry_bounded e.
Proof.
  destruct it as [name idx|idx k v]; cbn.
  - intros [= <-]. split; cbn; [lia|]. intros _. lia.
  - intros H. by apply createEntry_bounded in H as [? _].
Qed.

Lemma cursor_ok_next it its e p i :
  paired (it :: its) → cursor_ok (it :: its) i → item_entry it = Ok e →
  paired its ∧ cursor_ok its (snd (next_cursor it e p i)).
Proof.
  intros Hp [Hi1 Hi2] He. pose proof (item_entry_bounded _ _ He) as [Hs _].
  destruct it as [name idx|idx k v]; cbn in *.
  - destruct Hp as [Hk Hp]. split; [done|].
    destruct its as [|[]]; try done. unfold cursor_ok. lia.
  - split; [done|]. unfold cursor_ok, ENTRIES_PER_PAGE.
    destruct (Nat.leb_spec 126 (i + e_span e)); cbn; destruct its as [|[]]; lia.
Qed.

Lemma next_cursor_page it e p i :
  fst (next_cursor it e p i) = p ∨
  (fst (next_cursor it e p i) = S p ∧ snd (next_cursor it e p i) = 1).
Proof.
  destruct it; cbn; [auto|]. destruct (_ <=? _); cbn; auto.
Qed.

Lemma final_cursor_page its : ∀ p i, p ≤ fst (final_cursor its p i).
Proof.
  induction its as [|it its IH]; intros p i; cbn; [done|].
  destruct (item_entry it) as [e|]; [|done].
  specialize (IH (fst (next_cursor it e p i)) (snd (next_cursor it e p i))).
  destruct (next_cursor_page it e p i) as [E|[E _]]; lia.
Qed.

(** The bytes of the slots of a placement, and what a run from a cursor
    may write. *)
Definition slots_of (pl : placement) (o : nat) : Prop :=
  in_range (entry_offset pl.1.1 pl.1.2)
           (entry_offset pl.1.1 pl.1.2 + 32 * e_span pl.2) o.

Definition in_header (q : nat) (o : nat) : Prop :=
  in_range (q * PAGE_SIZE) (q * PAGE_SIZE + 32) o.

Definition in_bitmap (q : nat) (o : nat) : Prop :=
  in_range (bitmap_offset q) (bitmap_offset q + 2) o.

Definition written (its : list item) (p i : nat) (o : nat) : Prop :=
  let lp := fst (final_cursor its p i) in
  (∃ q, p ≤ q < lp ∧ in_header q o) ∨
  (∃ q, p < q ≤ lp ∧ in_bitmap q o) ∨
  Exists (λ pl, slots_of pl o) (layout its p i).

(** What lies before the cursor, the header of its page apart, is final. *)
Definition frozen (p i : nat) (o : nat) : Prop :=
  o < entry_offset p i ∧ ¬ in_header p o.

Ltac unfold_layout :=
  unfold frozen, slots_of, in_header, in_bitmap, in_range, bitmap_offset,
    entry_offset, PAGE_SIZE, ENTRY_SIZE, ENTRIES_PER_PAGE in *;
  cbn [fst snd] in *.

Lemma frozen_next it e p i o :
  1 ≤ i ≤ 126 → 1 ≤ e_span e →
  frozen p i o →
  frozen (fst (next_cursor it e p i)) (snd (next_cursor it e p i)) o.
Proof.
  intros Hi Hs. destruct it; cbn.
  - unfold_layout. lia.
  - destruct (Nat.leb_spec ENTRIES_PER_PAGE (i + e_span e)); cbn;
      unfold_layout; lia.
Qed.

Lemma layout_placed its : ∀ p i,
  paired its → cursor_ok its i →
  Forall (λ pl, ∀ o, slots_of pl o → ¬ frozen p i o) (layout its p i).
Proof.
  induction its as [|it its IH]; intros p i Hp Hc; cbn; [constructor|].
  destruct (item_entry it) as [e|] eqn:He; [|constructor].
  pose proof (cursor_ok_le _ _ Hc) as Hi.
  pose proof (item_entry_bounded _ _ He) as [Hs _].
  destruct (cursor_ok_next _ _ _ p _ Hp Hc He) as [Hp' Hc'].
  constructor.
  - intros o. cbn. unfold_layout. lia.
  - eapply Forall_impl; [apply (IH _ _ Hp' Hc')|].
    intros pl H o Ho Hf. apply (H o Ho). by apply frozen_next.
Qed.

Lemma written_not_frozen its p i o :
  paired its → cursor_ok its i → written its p i o → ¬ frozen p i o.
Proof.
  intros Hp Hc [(q & Hq & Ho)|[(q & Hq & Ho)|Ho]].
  - pose proof (cursor_ok_le _ _ Hc). unfold_layout. lia.
  - pose proof (cursor_ok_le _ _ Hc). unfold_layout. lia.
  - apply Exists_exists in Ho as (pl & Hin & Ho).
    pose proof (layout_placed its p i Hp Hc) as HF.
    rewrite Forall_forall in HF. by apply (HF pl).
Qed.

(** ** One turn of the entry stream *)

Definition placed (b : list Z) (pl : placement) : Prop :=
  head_spec b (entry_offset pl.1.1 pl.1.2) pl.2 ∧
  (pl.1.2 + e_span pl.2 ≤ 127 →
   payload_spec b (entry_offset pl.1.1 pl.1.2) pl.2).

Definition step_written (it : item) (e : Entry) (p i : nat) (o : nat) : Prop :=
  slots_of (p, i, e) o ∨
  (fst (next_cursor it e p i) = S p ∧ (in_header p o ∨ in_bitmap (S p) o)).

Lemma placed_agree b b' pl :
  (∀ o, in_range (entry_offset pl.1.1 pl.1.2) (entry_offset pl.1.1 pl.1.2 + 32) o →
        b' !! o = b !! o) →
  (pl.1.2 + e_span pl.2 ≤ 127 → ∀ o, slots_of pl o → b' !! o = b !! o) →
  (is_str_or_blob (e_type pl.2) = true →
   length (e_data pl.2) ≤ 32 * (e_span pl.2 - 1)) →
  placed b pl → placed b' pl.
Proof.
  destruct pl as [[q j] e]. cbn [fst snd]. intros H H' Hfit [Hh Hp].
  split.
  - eapply head_spec_agree; [|done]. done.
  - intros Hj Hstr j' Hj'. specialize (Hfit Hstr).
    rewrite (H' Hj) by (unfold_layout; lia). by apply Hp.
Qed.

Lemma item_entry_fit it e :
  item_entry it = Ok e →
  is_str_or_blob (e_type e) = true → length (e_data e) ≤ 32 * (e_span e - 1).
Proof.
  destruct it as [name idx|idx k v]; cbn.
  - intros [= <-]. cbn. done.
  - intros H. by apply createEntry_bounded in H as [_ ?].
Qed.

Lemma generate_item_step N st it st1 :
  generate_item N st it = Ok st1 → 1 ≤ g_entry st ≤ 126 →
  ∃ e, item_entry it = Ok e ∧
       g_page st1 = fst (next_cursor it e (g_page st) (g_entry st)) ∧
       g_entry st1 = snd (next_cursor it e (g_page st) (g_entry st)) ∧
       placed (g_binary st1) (g_page st, g_entry st, e) ∧
       same_except (step_written it e (g_page st) (g_entry st))
                   (g_binary st) (g_binary st1) ∧
       (g_page st1 = S (g_page st) →
        page_state (g_binary st1) (g_page st) = Ok PAGE_STATE_ACTIVE ∧
        S (g_page st) < N).
Proof.
  destruct st as [b p i]. cbn [g_binary g_page g_entry]. intros H Hi.
  destruct it as [name idx|idx k v]; cbn [generate_item g_binary g_page g_entry] in H.
  - destruct (writeEntry b p i (ns_entry name idx)) as [bw|] eqn:Ew; [|done].
    cbn [rbind] in H. injection H as <-. cbn [g_binary g_page g_entry].
    exists (ns_entry name idx). split; [done|]. cbn [next_cursor fst snd].
    split; [done|]. split; [done|]. split; [|split].
    + split; cbn [fst snd]; [apply (writeEntry_head _ _ _ _ _ Ew)|].
      intros _ Hstr. done.
    + eapply same_except_weaken.
      * apply (writeEntry_same _ _ _ _ _ Ew). split; cbn; [lia|intros _; lia].
      * intros o Ho. left. done.
    + lia.
  - unfold generate_kv in H. cbn [fst snd g_binary g_page g_entry] in H.
    destruct (createEntry idx k v) as [e|] eqn:Ec; [|done]. cbn [rbind] in H.
    destruct (writeEntry b p i e) as [bw|] eqn:Ew; [|done]. cbn [rbind] in H.
    exists e. split; [done|].
    pose proof (createEntry_bounded _ _ _ _ Ec) as [Hb Hfit].
    pose proof (writeEntry_same _ _ _ _ _ Ew Hb) as Fw.
    assert (placed bw (p, i, e)) as Hpl.
    { split; cbn [fst snd]; [apply (writeEntry_head _ _ _ _ _ Ew)|].
      intros _. by apply (writeEntry_payload _ _ _ _ _ Ew). }
    unfold next_cursor. fold (ENTRIES_PER_PAGE <=? i + e_span e) in H.
    destruct (Nat.leb_spec ENTRIES_PER_PAGE (i + e_span e)) as [Hsw|Hsw];
      cbn [fst snd].
    { destruct (finalizePage bw p (i + e_span e)) as [bf|] eqn:Ef; [|done].
      cbn [rbind] in H.
      destruct (Nat.leb_spec N (S p)) as [HN|HN]; [done|].
      injection H as <-. cbn [g_binary g_page g_entry].
      pose proof (finalizePage_same _ _ _ _ Ef) as Ff.
      pose proof (write_bitmap_same bf (S p)) as Fb.
      assert (fst (next_cursor (ItemKv idx k v) e p i) = S p) as Hnc.
      { unfold next_cursor.
        destruct (Nat.leb_spec ENTRIES_PER_PAGE (i + e_span e)); [done|lia]. }
      split; [done|]. split; [done|]. split; [|split].
      + eapply placed_agree;
          [| |by apply (item_entry_fit (ItemKv idx k v))|done]; cbn [fst snd].
        * intros o Ho.
          rewrite (same_except_lookup _ _ _ _ Fb) by (unfold_layout; lia).
          apply (same_except_lookup _ _ _ _ Ff). unfold_layout. lia.
        * intros Hj o Ho.
          rewrite (same_except_lookup _ _ _ _ Fb) by (unfold_layout; lia).
          apply (same_except_lookup _ _ _ _ Ff). unfold_layout. lia.
      + eapply same_except_trans; [|eapply same_except_trans].
        * eapply same_except_weaken; [apply Fw|]. intros o Ho. by left.
        * eapply same_except_weaken; [apply Ff|]. intros o Ho. right.
          split; [done|]. by left.
        * eapply same_except_weaken; [apply Fb|]. intros o Ho. right.
          split; [done|]. by right.
      + intros _. split; [|lia].
        rewrite (page_state_agree bf).
        * by apply (finalizePage_state _ _ _ _ Ef).
        * apply (same_except_length _ _ _ Fb).
        * intros o Ho. apply (same_except_lookup _ _ _ _ Fb). unfold_layout. lia. }
    { injection H as <-. cbn [g_binary g_page g_entry].
      split; [done|]. split; [done|]. split; [done|]. split; [|lia].
      eapply same_except_weaken; [apply Fw|]. intros o Ho. by left. }
Qed.

(** ** The whole entry stream *)

Lemma frozen_same its p i b b' o :
  paired its → cursor_ok its i →
  same_except (written its p i) b b' → frozen p i o → b' !! o = b !! o.
Proof.
  intros Hp Hc F Ho. apply (same_except_lookup _ _ _ _ F).
  intros Hw. by apply (written_not_frozen its p i o Hp Hc).
Qed.

Lemma head_frozen_next it e p i o :
  1 ≤ i ≤ 126 → 1 ≤ e_span e →
  in_range (entry_offset p i) (entry_offset p i + 32) o →
  frozen (fst (next_cursor it e p i)) (snd (next_cursor it e p i)) o.
Proof.
  intros Hi Hs Ho. destruct it; unfold next_cursor.
  - unfold_layout. lia.
  - destruct (Nat.leb_spec ENTRIES_PER_PAGE (i + e_span e));
      unfold_layout; lia.
Qed.

Lemma slots_frozen_next it e p i o :
  item_entry it = Ok e → 1 ≤ i ≤ 126 → i + e_span e ≤ 127 →
  slots_of (p, i, e) o →
  frozen (fst (next_cursor it e p i)) (snd (next_cursor it e p i)) o.
Proof.
  intros He Hi Hj Ho. destruct it; unfold next_cursor.
  - cbn in He. injection He as <-. unfold_layout. cbn in *. lia.
  - destruct (Nat.leb_spec ENTRIES_PER_PAGE (i + e_span e));
      unfold_layout; lia.
Qed.

Record run_facts (N : nat) (its : list item) (st st' : gstate) : Prop := mkRun {
  rf_page : g_page st' = fst (final_cursor its (g_page st) (g_entry st));
  rf_entry : g_entry st' = snd (final_cursor its (g_page st) (g_entry st));
  rf_all : length (layout its (g_page st) (g_entry st)) = length its;
  rf_frame :
    same_except (written its (g_page st) (g_entry st))
                (g_binary st) (g_binary st');
  rf_placed :
    Forall (placed (g_binary st')) (layout its (g_page st) (g_entry st));
  rf_pages : ∀ q, g_page st ≤ q < g_page st' →
    page_state (g_binary st') q = Ok PAGE_STATE_ACTIVE;
  rf_room : g_page st' ≠ g_page st → g_page st' < N
}.

Lemma run_spec N its : ∀ st st',
  paired its → cursor_ok its (g_entry st) →
  foldM (generate_item N) its st = Ok st' →
  run_facts N its st st'.
Proof.
  induction its as [|it its IH]; intros st st' Hp Hc H.
  - cbn in H. injection H as <-. split; cbn; try done.
    + intros q Hq. lia.
  - cbn [foldM] in H.
    destruct (generate_item N st it) as [st1|] eqn:E1; [|done]. cbn [rbind] in H.
    pose proof (cursor_ok_le _ _ Hc) as Hi.
    destruct (generate_item_step _ _ _ _ E1 Hi)
      as (e & He & Hp1 & Hi1 & Hpl1 & Fs & Hsw).
    destruct (cursor_ok_next _ _ _ (g_page st) _ Hp Hc He) as [Hp' Hc'].
    rewrite <- Hi1 in Hc'.
    pose proof (item_entry_bounded _ _ He) as Hb.
    destruct (IH st1 st' Hp' Hc' H) as [R1 R2 R3 R4 R5 R6 R7].
    pose proof (final_cursor_page its (g_page st1) (g_entry st1)) as Hmono.
    pose proof (next_cursor_page it e (g_page st) (g_entry st)) as Hnc.
    rewrite <- Hp1, <- Hi1 in Hnc.
    assert (∀ o, frozen (g_page st1) (g_entry st1) o →
              g_binary st' !! o = g_binary st1 !! o) as Hfz.
    { intros o. by apply (frozen_same its). }
    split; cbn [final_cursor layout]; rewrite ?He, <- ?Hp1, <- ?Hi1.
    + done.
    + done.
    + cbn. by rewrite R3.
    + apply same_except_trans with (g_binary st1).
      * eapply same_except_weaken; [apply Fs|].
        intros o [Ho|[Hs [Ho|Ho]]]; unfold written;
          cbn [final_cursor layout]; rewrite He, <- ?Hp1, <- ?Hi1.
        -- right. right. by apply Exists_cons_hd.
        -- left. exists (g_page st). split; [|done]. rewrite <- Hp1 in Hs. lia.
        -- right. left. exists (S (g_page st)). split; [|done].
           rewrite <- Hp1 in Hs. lia.
      * eapply same_except_weaken; [apply R4|].
        intros o [(q & Hq & Ho)|[(q & Hq & Ho)|Ho]]; unfold written;
          cbn [final_cursor layout]; rewrite He, <- ?Hp1, <- ?Hi1.
        -- left. exists q. split; [lia|done].
        -- right. left. exists q. split; [lia|done].
        -- right. right. by apply Exists_cons_tl.
    + constructor; [|done].
      eapply placed_agree; [| |by apply (item_entry_fit it)|done]; cbn [fst snd].
      * intros o Ho. apply Hfz. rewrite Hp1, Hi1.
        apply head_frozen_next; [done|by destruct Hb|done].
      * intros Hj o Ho. apply Hfz. rewrite Hp1, Hi1.
        by apply slots_frozen_next.
    + intros q Hq. destruct (decide (g_page st1 ≤ q)) as [Hq1|Hq1].
      * apply R6. lia.
      * assert (q = g_page st ∧ g_page st1 = S (g_page st)) as [-> Hs] by lia.
        destruct (Hsw Hs) as [Hst _]. rewrite <- Hst.
        apply page_state_agree; [apply (same_except_length _ _ _ R4)|].
        intros o Ho. apply Hfz.
        assert (g_entry st1 = 1) by (destruct Hnc as [?|[_ ?]]; [lia|done]).
        unfold_layout. lia.
    + intros Hne. destruct (decide (g_page st' = g_page st1)) as [Heq|Hneq].
      * assert (g_page st1 = S (g_page st)) as Hs by lia.
        destruct (Hsw Hs) as [_ ?]. lia.
      * specialize (R7 Hneq). lia.
Qed.

Lemma paired_kvs idx (kvs : jsobject jsvalue) its :
  paired its → paired (map (λ kv, ItemKv idx (fst kv) (snd kv)) kvs ++ its).
Proof. intros H. induction kvs as [|kv kvs IH]; cbn; auto. Qed.

Lemma paired_items_of namespaceMap data : paired (items_of namespaceMap data).
Proof.
  induction data as [|ns data IH]; cbn; [done|].
  unfold items_of_ns. destruct (snd ns) as [|kv kvs]; cbn; [done|].
  split; [done|]. by apply paired_kvs.
Qed.

Lemma layout_slots its : ∀ p i,
  paired its → cursor_ok its i →
  Forall (λ pl : placement,
            1 ≤ pl.1.2 ≤ 126 ∧
            p ≤ pl.1.1 ≤ fst (final_cursor its p i) ∧
            entry_bounded pl.2 ∧
            (is_str_or_blob (e_type pl.2) = true →
             length (e_data pl.2) ≤ 32 * (e_span pl.2 - 1)))
         (layout its p i).
Proof.
  induction its as [|it its IH]; intros p i Hp Hc; cbn; [constructor|].
  destruct (item_entry it) as [e|] eqn:He; [|constructor].
  pose proof (cursor_ok_le _ _ Hc) as Hi.
  destruct (cursor_ok_next _ _ _ p _ Hp Hc He) as [Hp' Hc'].
  pose proof (final_cursor_page its (fst (next_cursor it e p i))
                (snd (next_cursor it e p i))) as Hmono.
  pose proof (next_cursor_page it e p i) as Hnc.
  constructor.
  - cbn [fst snd]. split; [done|]. split; [lia|].
    split; [by apply (item_entry_bounded it)|by apply (item_entry_fit it)].
  - eapply Forall_impl; [apply (IH _ _ Hp' Hc')|].
    intros pl (? & [? ?] & ? & ?). split; [done|]. split; [lia|done].
Qed.

(** [generate] as the fold over its entry stream, then the last header. *)
Definition initial_state (partitionSize : nat) : gstate :=
  mkG (write_bitmap (replicate partitionSize 255%Z) 0) 0 1.

Definition stream (data : nvs_data) : list item :=
  items_of (build_namespace_map data) data.

Lemma final_cursor_entry its : ∀ p i,
  paired its → cursor_ok its i → 1 ≤ snd (final_cursor its p i) ≤ 126.
Proof.
  induction its as [|it its IH]; intros p i Hp Hc; cbn.
  - unfold cursor_ok in Hc. lia.
  - destruct (item_entry it) as [e|] eqn:He; cbn; [|by apply cursor_ok_le in Hc].
    destruct (cursor_ok_next _ _ _ p _ Hp Hc He) as [Hp' Hc']. by apply IH.
Qed.

Lemma stream_paired data : paired (stream data).
Proof. apply paired_items_of. Qed.

Lemma stream_cursor_ok data : cursor_ok (stream data) 1.
Proof. unfold cursor_ok. destruct (stream data) as [|[]]; lia. Qed.

Lemma generate_unfold data size b :
  generate data size = Ok b ↔
  ∃ st, foldM (generate_item (size / PAGE_SIZE)) (stream data)
              (initial_state size) = Ok st ∧
        finalizePage (g_binary st) (g_page st) (g_entry st) = Ok b.
Proof.
  unfold generate. rewrite generate_items.
  fold (stream data). fold (initial_state size).
  destruct (foldM _ _ _) as [st|] eqn:E; cbn [rbind].
  - pose proof (run_spec _ _ (initial_state size) _ (stream_paired data)
                  (stream_cursor_ok data) E) as R.
    pose proof (final_cursor_entry _ 0 1 (stream_paired data) (stream_cursor_ok data)).
    pose proof (rf_entry _ _ _ _ R) as He. cbn [initial_state g_page g_entry] in He.
    destruct (Nat.ltb_spec 0 (g_entry st)); [|lia].
    split; [eauto|]. by intros (st0 & [= <-] & ?).
  - split; [done|]. by intros (st0 & ? & ?).
Qed.

(** ** The image [generate] returns *)

Definition last_page (data : nvs_data) : nat := fst (final_cursor (stream data) 0 1).
Definition last_slot (data : nvs_data) : nat := snd (final_cursor (stream data) 0 1).

(** The bytes of the page headers and bitmap slots of the pages in use, and
    of the slots of the entries. *)
Definition image_written (data : nvs_data) (o : nat) : Prop :=
  (∃ q, q ≤ last_page data ∧ in_range (q * PAGE_SIZE) (q * PAGE_SIZE + 64) o) ∨
  Exists (λ pl, slots_of pl o) (layout (stream data) 0 1).

Record image_facts (data : nvs_data) (size : nat) (b : list Z) : Prop := mkImage {
  if_length : length b = size;
  if_all : length (layout (stream data) 0 1) = length (stream data);
  if_placed : Forall (placed b) (layout (stream data) 0 1);
  if_pages : ∀ q, q ≤ last_page data → page_state b q = Ok PAGE_STATE_ACTIVE;
  if_frame : ∀ o, o < size → ¬ image_written data o → b !! o = Some 255%Z;
  if_room : last_page data ≠ 0 → last_page data < size / PAGE_SIZE
}.

Lemma generate_image data size b :
  generate data size = Ok b → image_facts data size b.
Proof.
  intros (st & E & Ef)%generate_unfold.
  pose proof (run_spec _ _ (initial_state size) _ (stream_paired data)
                (stream_cursor_ok data) E) as [R1 R2 R3 R4 R5 R6 R7].
  cbn [initial_state g_binary g_page g_entry] in *.
  fold (last_page data) in R1. fold (last_slot data) in R2.
  pose proof (finalizePage_same _ _ _ _ Ef) as Ff. rewrite R1 in Ff.
  pose proof (write_bitmap_same (replicate size 255%Z) 0) as Fb.
  pose proof (layout_slots _ 0 1 (stream_paired data) (stream_cursor_ok data)) as HL.
  assert (length (g_binary st) = size) as Lst.
  { rewrite (same_except_length _ _ _ R4), (same_except_length _ _ _ Fb).
    apply length_replicate. }
  split.
  - by rewrite (same_except_length _ _ _ Ff).
  - done.
  - rewrite Forall_forall in R5, HL. apply Forall_forall. intros pl Hin.
    destruct (HL pl Hin) as (Hj & Hq & Hb & Hfit).
    eapply placed_agree; [| |done|by apply R5].
    + intros o Ho. apply (same_except_lookup _ _ _ _ Ff). unfold_layout. lia.
    + intros Hs o Ho. apply (same_except_lookup _ _ _ _ Ff). unfold_layout. lia.
  - intros q Hq. destruct (decide (q = last_page data)) as [->|Hne].
    + rewrite <- R1. by apply (finalizePage_state _ _ _ _ Ef).
    + rewrite (page_state_agree (g_binary st)).
      * apply R6. lia.
      * apply (same_except_length _ _ _ Ff).
      * intros o Ho. apply (same_except_lookup _ _ _ _ Ff). unfold_layout. lia.
  - intros o Ho Hw.
    assert (¬ in_range (last_page data * PAGE_SIZE)
              (last_page data * PAGE_SIZE + 32) o) as H1.
    { intros H. apply Hw. left. exists (last_page data). unfold in_range in *. lia. }
    assert (¬ written (stream data) 0 1 o) as H2.
    { intros [(q & Hq & H)|[(q & Hq & H)|H]]; apply Hw.
      - left. exists q. fold (last_page data) in Hq. unfold_layout. lia.
      - left. exists q. fold (last_page data) in Hq. unfold_layout. lia.
      - by right. }
    assert (¬ in_range (bitmap_offset 0) (bitmap_offset 0 + 2) o) as H3.
    { intros H. apply Hw. left. exists 0. unfold_layout. lia. }
    rewrite (same_except_lookup _ _ _ _ Ff), (same_except_lookup _ _ _ _ R4),
      (same_except_lookup _ _ _ _ Fb) by done.
    by apply lookup_replicate_2.
  - intros H. rewrite <- R1. apply R7. by rewrite R1.
Qed.

(** ** Reading an image back *)

Lemma read_bytes_lookup b off l :
  off + length l ≤ length b →
  (∀ j, j < length l → b !! (off + j) = l !! j) →
  read_bytes b off (length l) = Ok l.
Proof. intros Hb H. rewrite read_bytes_ok by done. by rewrite slice_eq_lookup. Qed.

Lemma getUint_lookup n b off l :
  length l = n → off + n ≤ length b →
  (∀ j, j < n → b !! (off + j) = l !! j) →
  getUint n b off = Ok (le_value l).
Proof.
  intros <- Hb H. unfold getUint. by rewrite read_bytes_lookup.
Qed.

Lemma getUint8_lookup b off v :
  b !! off = Some v → getUint8 b off = Ok v.
Proof.
  intros H. unfold getUint8.
  rewrite (getUint_lookup 1 b off [v]); [cbn; f_equal; lia|done| |].
  - apply lookup_lt_Some in H. lia.
  - intros [|j] Hj; [|lia]. by rewrite Nat.add_0_r.
Qed.

Lemma le_value_le_bytes n : ∀ v,
  (0 ≤ v < 256 ^ Z.of_nat n)%Z → le_value (le_bytes n v) = v.
Proof.
  induction n as [|n IH]; intros v Hv.
  - cbn in *. lia.
  - cbn [le_bytes le_value]. rewrite IH.
    + pose proof (Z.div_mod v 256). lia.
    + rewrite Nat2Z.inj_succ, Z.pow_succ_r in Hv by lia.
      split; [apply Z.div_pos; lia|]. apply Z.div_lt_upper_bound; lia.
Qed.

Lemma to_uint32_small z : (0 ≤ z < 4294967296)%Z → to_uint32 z = z.
Proof.
  intros H. unfold to_uint32. change 4294967295%Z with (Z.ones 32).
  rewrite Z.land_ones by lia. apply Z.mod_small. lia.
Qed.

Lemma to_uint32_mod z : to_uint32 z = (z mod 4294967296)%Z.
Proof.
  unfold to_uint32. change 4294967295%Z with (Z.ones 32).
  by rewrite Z.land_ones by lia.
Qed.

Lemma text_decode_encode s : text_decode (text_encode s) = s.
Proof.
  unfold text_decode, text_encode. rewrite map_map.
  rewrite (map_ext _ id), map_id.
  - apply string_of_list_ascii_of_string.
  - intros c. unfold ascii_of_byte, byte_of_ascii.
    rewrite N2Z.id. apply ascii_N_embedding.
Qed.

Lemma length_text_encode s : length (text_encode s) = String.length s.
Proof.
  unfold text_encode. rewrite length_map.
  induction s; cbn; auto.
Qed.

(** Bytes of a string that the codec gives back: ASCII and no NUL. *)
Definition plain_text (s : string) : Prop :=
  Forall (λ z, (1 ≤ z < 128)%Z) (text_encode s).

Lemma index_of_zero_app l1 l2 :
  Forall (λ z, (1 ≤ z < 128)%Z) l1 →
  index_of_zero (l1 ++ 0%Z :: l2) = Some (length l1).
Proof.
  induction 1 as [|x l1 Hx _ IH]; cbn; [done|].
  destruct (Z.eqb_spec x 0); [lia|]. by rewrite IH.
Qed.

(** The key of an entry read back from its key field. *)
Definition key_ok (key : string) : Prop :=
  plain_text key ∧ 1 ≤ String.length key ≤ 15.

Lemma key_field_ok key :
  key_ok key →
  key_field key = text_encode key ++ replicate (16 - String.length key) 0%Z.
Proof.
  intros [_ Hl]. unfold key_field.
  rewrite text_encode_substring0, take_ge by (rewrite length_text_encode; lia).
  by rewrite length_text_encode.
Qed.

Lemma key_decode key :
  key_ok key →
  text_decode (slice (key_field key) 0
     (match index_of_zero (key_field key) with
      | Some (S k) => S k
      | _ => 16
      end)) = key.
Proof.
  intros Hk. rewrite (key_field_ok _ Hk). destruct Hk as [Hp Hl].
  destruct (16 - String.length key) as [|n] eqn:En; [lia|].
  cbn [replicate]. rewrite index_of_zero_app by done.
  rewrite length_text_encode.
  destruct (String.length key) as [|k] eqn:Ek; [lia|].
  unfold slice. rewrite drop_0, Nat.sub_0_r, <- Ek, <- length_text_encode.
  rewrite take_app_length. apply text_decode_encode.
Qed.

Definition partial_read (data : list Z) (k : nat) : list Z :=
  let br := min (32 * k) (length data) in
  take br data ++ replicate (length data - br) 0%Z.

Lemma read_chunks_spec b off data n : ∀ k,
  (∀ j, j < length data → b !! (off + 32 + j) = data !! j) →
  off + 32 * (S k + n) ≤ length b →
  read_chunks b off (length data) (partial_read data k)
    (min (32 * k) (length data)) (S k) n
  = Ok (partial_read data (k + n)).
Proof.
  induction n as [|n IH]; intros k Hd Hb; cbn [read_chunks].
  - by rewrite Nat.add_0_r.
  - set (L := length data) in *. set (br := min (32 * k) L).
    set (cs := min (L - br) ENTRY_SIZE). unfold ENTRY_SIZE in *.
    assert (br + cs = min (32 * S k) L) as Hbr by lia.
    assert (slice b (off + S k * 32) (off + S k * 32 + cs) = take cs (drop br data))
      as Hchunk.
    { apply list_eq. intros j. destruct (decide (j < cs)).
      - rewrite slice_lookup, lookup_take_lt, lookup_drop by lia.
        replace (off + S k * 32 + j) with (off + 32 + (br + j)) by lia.
        apply Hd. lia.
      - rewrite slice_lookup_ge, lookup_take_ge by lia. done. }
    rewrite read_bytes_ok by lia. cbn [rbind]. rewrite Hchunk.
    assert (overlay (partial_read data k) (take cs (drop br data)) br
            = partial_read data (S k)) as ->.
    { unfold overlay, partial_read. fold L. fold br.
      rewrite length_take, length_drop.
      replace (cs `min` (L - br)) with cs by lia.
      rewrite take_app_length' by (rewrite length_take; lia).
      rewrite drop_app_ge by (rewrite length_take; lia).
      rewrite length_take. replace (br `min` L) with br by lia.
      rewrite drop_replicate. rewrite app_assoc, take_take_drop.
      rewrite Hbr. do 2 f_equal. lia. }
    rewrite Hbr. replace (k + S n) with (S k + n) by lia.
    apply IH; [done|lia].
Qed.

Lemma partial_read_all data k :
  length data ≤ 32 * k → partial_read data k = data.
Proof.
  intros H. unfold partial_read.
  replace (min (32 * k) (length data)) with (length data) by lia.
  rewrite take_ge, Nat.sub_diag by lia. cbn. apply app_nil_r.
Qed.

Lemma partial_read_0 data : partial_read data 0 = replicate (length data) 0%Z.
Proof.
  unfold partial_read. cbn [Nat.mul]. rewrite Nat.mul_0_r. cbn [min].
  rewrite take_0, Nat.sub_0_r. done.
Qed.

(** Values the codec gives back. *)
Definition value_ok (v : jsvalue) : Prop :=
  match v with
  | VStr s => plain_text s
  | VInt z => (0 ≤ z < 4294967296)%Z
  | _ => False
  end.

Definition item_ok (it : item) : Prop :=
  match it with
  | ItemNs name nsIndex => key_ok name ∧ 1 ≤ nsIndex ≤ 254
  | ItemKv nsIndex key value => key_ok key ∧ 1 ≤ nsIndex ≤ 254 ∧ value_ok value
  end.

(** What one entry of the stream does to [data] and [namespaces] when
    [parse] reads it back. *)
Definition replay_item (st : pstate) (it : item) : pstate :=
  match it with
  | ItemNs name nsIndex =>
      mkP (ensure_object (p_data st) name)
          (namespaces_set (p_namespaces st) nsIndex name)
  | ItemKv nsIndex key value =>
      let namespaceName := namespace_name (p_namespaces st) nsIndex in
      mkP (set_value (ensure_object (p_data st) namespaceName)
                     namespaceName key value)
          (p_namespaces st)
  end.

Lemma to_uint8_small z : (0 ≤ z < 256)%Z → to_uint8 z = z.
Proof. intros. unfold to_uint8. by apply Z.mod_small. Qed.

Lemma to_uint16_small z : (0 ≤ z < 65536)%Z → to_uint16 z = z.
Proof. intros. unfold to_uint16. by apply Z.mod_small. Qed.

Lemma parse_value_placed b off idx key v e :
  createEntry idx key v = Ok e → value_ok v →
  head_spec b off e → payload_spec b off e →
  off + 32 * e_span e ≤ length b → e_span e ≤ 126 →
  parse_value b off (e_type e) (e_span e) = Ok (Some v).
Proof.
  intros Hc Hv Hh Hp Hb Hs.
  pose proof (createEntry_bounded _ _ _ _ Hc) as [[Hs1 _] Hfit].
  apply createEntry_inv in Hc as (_ & _ & [(s & -> & Ht & Hd & Hsp)|(z & -> & Hsp & Hz)]).
  - (* a string *)
    destruct Hh as [_ _ _ _ _ Hdat _].
    assert (is_str_or_blob (e_type e) = true) as Ht' by (by rewrite Ht).
    rewrite Ht' in Hdat. specialize (Hfit Ht'). specialize (Hp Ht').
    rewrite Ht. unfold parse_value.
    change (TYPE_STR =? TYPE_U8)%Z with false. change (TYPE_STR =? TYPE_I8)%Z with false.
    change (TYPE_STR =? TYPE_U16)%Z with false. change (TYPE_STR =? TYPE_I16)%Z with false.
    change (TYPE_STR =? TYPE_U32)%Z with false. change (TYPE_STR =? TYPE_I32)%Z with false.
    change (TYPE_STR =? TYPE_STR)%Z with true. cbv iota.
    unfold getUint16.
    rewrite (getUint_lookup 2 b (off + 24)
               (le_bytes 2 (to_uint16 (Z.of_nat (length (e_data e))))));
      [|done|lia|done].
    cbn [rbind]. rewrite le_value_le_bytes
      by (unfold to_uint16; apply Z.mod_pos_bound; lia).
    rewrite to_uint16_small by lia. rewrite Nat2Z.id.
    rewrite <- partial_read_0.
    pose proof (read_chunks_spec b off (e_data e) (e_span e - 1) 0) as Hr.
    rewrite Nat.mul_0_r in Hr. cbn [min] in Hr. cbn [Nat.add] in Hr.
    rewrite Hr by (done || lia). clear Hr. cbn [rbind].
    rewrite partial_read_all by lia.
    rewrite Hd, index_of_zero_app by done. cbn [default].
    unfold slice, id. rewrite drop_0, Nat.sub_0_r, take_app_length.
    by rewrite text_decode_encode.
  - (* an integer *)
    destruct Hh as [_ _ _ _ _ Hdat _]. cbn in Hv.
    assert (is_str_or_blob (e_type e) = false) as Ht'
      by (destruct Hz as [(_ & -> & _)|[(_ & -> & _)|(_ & -> & _)]]; done).
    rewrite Ht' in Hdat.
    destruct Hz as [(Hr & Ht & Hd)|[(Hr & Ht & Hd)|(Hr & Ht & Hd)]];
      rewrite Ht; rewrite Hd in Hdat; unfold parse_value.
    + change (TYPE_U8 =? TYPE_U8)%Z with true. cbv iota.
      rewrite (getUint8_lookup _ _ (to_uint8 z)).
      * cbn [rbind]. by rewrite to_uint8_small by lia.
      * specialize (Hdat 0). rewrite Nat.add_0_r in Hdat. apply Hdat; cbn; lia.
    + change (TYPE_U16 =? TYPE_U8)%Z with false.
      change (TYPE_U16 =? TYPE_I8)%Z with false.
      change (TYPE_U16 =? TYPE_U16)%Z with true. cbv iota.
      unfold getUint16.
      rewrite (getUint_lookup 2 b (off + 24) (le_bytes 2 (to_uint16 z)));
        [|done|lia|].
      * cbn [rbind]. rewrite le_value_le_bytes
          by (unfold to_uint16; apply Z.mod_pos_bound; lia).
        by rewrite to_uint16_small by lia.
      * intros j Hj. apply Hdat; rewrite ?length_le_bytes; lia.
    + change (TYPE_U32 =? TYPE_U8)%Z with false.
      change (TYPE_U32 =? TYPE_I8)%Z with false.
      change (TYPE_U32 =? TYPE_U16)%Z with false.
      change (TYPE_U32 =? TYPE_I16)%Z with false.
      change (TYPE_U32 =? TYPE_U32)%Z with true. cbv iota.
      unfold getUint32.
      rewrite (getUint_lookup 4 b (off + 24) (le_bytes 4 (to_uint32 z)));
        [|done|lia|].
      * cbn [rbind]. rewrite to_uint32_small by lia.
        by rewrite le_value_le_bytes by lia.
      * intros j Hj. apply Hdat; rewrite ?length_le_bytes; lia.
Qed.

Lemma createEntry_type_byte idx key v e :
  createEntry idx key v = Ok e → to_uint8 (e_type e) = e_type e.
Proof.
  intros H. apply createEntry_inv in H as (_ & _ & [(s & _ & -> & _)|(z & _ & _ & Hz)]);
    [done|].
  by destruct Hz as [(_ & -> & _)|[(_ & -> & _)|(_ & -> & _)]].
Qed.

Lemma read_key_field b off key :
  off + 24 ≤ length b →
  (∀ j, j < 16 → b !! (off + 8 + j) = key_field key !! j) →
  read_bytes b (off + 8) 16 = Ok (key_field key).
Proof.
  intros Hb H. rewrite <- (length_key_field key) at 1.
  apply read_bytes_lookup; rewrite length_key_field; [lia|done].
Qed.

Lemma parse_entry_placed b p i it e st :
  item_ok it → item_entry it = Ok e → placed b (p, i, e) →
  1 ≤ i → i + e_span e ≤ 127 → S p * PAGE_SIZE ≤ length b →
  parse_entry b (p * PAGE_SIZE) i st = Ok (replay_item st it, i + e_span e).
Proof.
  intros Hok He [Hh Hp] Hi Hj Hb. cbn [fst snd] in *. specialize (Hp Hj).
  pose proof (item_entry_bounded _ _ He) as [Hs1 _].
  assert (entry_offset p i + 32 * e_span e ≤ length b) as Hb'
    by (unfold_layout; lia).
  unfold parse_entry. fold (entry_offset p i). set (off := entry_offset p i) in *.
  pose proof Hh as [H0 H1 H2 H3 Hk Hd _].
  rewrite (getUint8_lookup _ _ _ H0). cbn [rbind].
  rewrite (getUint8_lookup _ _ _ H1). cbn [rbind].
  rewrite (getUint8_lookup _ _ _ H2). cbn [rbind].
  rewrite (read_key_field b off (e_key e)) by (done || lia). cbn [rbind].
  rewrite (to_uint8_small (Z.of_nat (e_span e))) by lia. rewrite Nat2Z.id.
  destruct it as [name idx|idx k v]; cbn [item_ok item_entry replay_item] in *.
  - injection He as <-. cbn [ns_entry e_namespace e_type e_span e_key e_data] in *.
    destruct Hok as [Hkey Hidx].
    rewrite (key_decode _ Hkey).
    change (to_uint8 (Z.of_nat 0) =? 255)%Z with false.
    change ((to_uint8 1 =? 1)%Z && (to_uint8 (Z.of_nat 0) =? 0)%Z) with true.
    cbv iota.
    change (is_str_or_blob 1) with false in Hd.
    rewrite (getUint8_lookup _ _ (to_uint8 (Z.of_nat idx))).
    + cbn [rbind]. rewrite to_uint8_small by lia. by rewrite Nat2Z.id.
    + specialize (Hd 0). rewrite Nat.add_0_r in Hd. apply Hd; cbn; lia.
  - destruct Hok as (Hkey & Hidx & Hv).
    pose proof (createEntry_inv _ _ _ _ He) as (Hns & Hke & _).
    rewrite Hns, Hke in *.
    rewrite (key_decode _ Hkey).
    rewrite (to_uint8_small (Z.of_nat idx)) by lia.
    destruct (Z.eqb_spec (Z.of_nat idx) 255); [lia|].
    destruct (Z.eqb_spec (Z.of_nat idx) 0); [lia|].
    rewrite andb_false_r. rewrite Nat2Z.id.
    rewrite (createEntry_type_byte _ _ _ _ He).
    rewrite (parse_value_placed b off idx k v e) by (done || lia).
    cbn [rbind]. done.
Qed.

(** ** Walking the pages *)







Definition aligned (pl : placement) : Prop :=
  1 ≤ pl.1.2 ≤ 125 ∧ pl.1.2 + e_span pl.2 ≤ 127.


(** ** Objects *)





Lemma obj_get_set_eq {A} (o : jsobject A) k v :
  obj_get (obj_set o k v) k = Some v.
Proof.
  induction o as [|[k' w] o IH]; cbn.
  - by rewrite String.eqb_refl.
  - destruct (String.eqb_spec k' k) as [->|Hne]; cbn.
    + by rewrite String.eqb_refl.
    + destruct (String.eqb_spec k' k); [congruence|]. done.
Qed.

Lemma obj_get_set_ne {A} (o : jsobject A) k k' v :
  k ≠ k' → obj_get (obj_set o k v) k' = obj_get o k'.
Proof.
  intros Hne. induction o as [|[k0 w] o IH]; cbn.
  - destruct (String.eqb_spec k k'); [congruence|]. done.
  - destruct (String.eqb_spec k0 k) as [->|Hne0]; cbn.
    + destruct (String.eqb_spec k k'); [congruence|]. done.
    + destruct (String.eqb_spec k0 k'); [done|]. done.
Qed.

(** ** The namespace map *)

Definition has_properties (ns : string * jsobject jsvalue) : bool :=
  0 <? length (snd ns).

(** The entry stream with the indices 1, 2, 3, ... written out: [k]
    namespaces with properties came before. *)
Fixpoint numbered_stream (k : nat) (data : nvs_data) : list item :=
  match data with
  | [] => []
  | ns :: data' =>
      if has_properties ns
      then ItemNs (fst ns) (S k)
           :: map (λ kv, ItemKv (S k) (fst kv) (snd kv)) (snd ns)
           ++ numbered_stream (S k) data'
      else numbered_stream k data'
  end.

Lemma namespace_map_untouched data : ∀ acc name,
  name ∉ map fst data →
  obj_get (fst (fold_left namespace_map_step data acc)) name
  = obj_get (fst acc) name.
Proof.
  induction data as [|ns data IH]; intros acc name H; cbn; [done|].
  apply not_elem_of_cons in H as [Hne H]. rewrite IH by done.
  unfold namespace_map_step. destruct (0 <? length (snd ns)); [|done].
  cbn. by apply obj_get_set_ne.
Qed.

Lemma namespace_map_counter data : ∀ acc,
  snd (fold_left namespace_map_step data acc)
  = snd acc + length (filter (λ ns, has_properties ns = true) data).
Proof.
  induction data as [|ns data IH]; intros acc; cbn [fold_left]; [cbn; lia|].
  rewrite IH. unfold namespace_map_step.
  change (0 <? length (snd ns)) with (has_properties ns).
  rewrite filter_cons. destruct (has_properties ns) eqn:E.
  - rewrite decide_True by done. cbn. lia.
  - rewrite decide_False by done. cbn. lia.
Qed.

Lemma namespace_map_lookup pre name kvs post acc :
  NoDup (map fst (pre ++ (name, kvs) :: post)) →
  has_properties (name, kvs) = true →
  obj_get (fst (fold_left namespace_map_step (pre ++ (name, kvs) :: post) acc)) name
  = Some (S (snd acc + length (filter (λ ns, has_properties ns = true) pre))).
Proof.
  intros Hnd Hne. rewrite fold_left_app. cbn [fold_left].
  rewrite map_app in Hnd. cbn [map fst] in Hnd.
  apply NoDup_app in Hnd as (_ & _ & Hnd). apply NoDup_cons in Hnd as [Hnotin _].
  rewrite namespace_map_untouched by done.
  unfold namespace_map_step at 1. unfold has_properties in Hne. rewrite Hne.
  cbn [fst snd]. rewrite obj_get_set_eq. by rewrite namespace_map_counter.
Qed.

Lemma stream_numbered data :
  NoDup (map fst data) → stream data = numbered_stream 0 data.
Proof.
  intros Hnd. unfold stream, build_namespace_map.
  assert (∀ post pre, data = pre ++ post →
            items_of (fst (fold_left namespace_map_step data ([], 0))) post
            = numbered_stream (length (filter (λ ns, has_properties ns = true) pre)) post)
    as H.
  { induction post as [|[name kvs] post IH]; intros pre Hd; [done|].
    cbn [items_of flat_map numbered_stream]. fold (items_of (fst (fold_left namespace_map_step data ([], 0))) post).
    unfold items_of_ns. cbn [fst snd].
    change (0 <? length kvs) with (has_properties (name, kvs)).
    rewrite (IH (pre ++ [(name, kvs)])) by (by rewrite <- app_assoc).
    rewrite filter_app, length_app, filter_cons, filter_nil.
    destruct (has_properties (name, kvs)) eqn:Hk.
    - assert (obj_get (fst (fold_left namespace_map_step data ([], 0))) name
              = Some (S (length (filter (λ ns, has_properties ns = true) pre))))
        as Hidx.
      { rewrite Hd. by rewrite namespace_map_lookup by (rewrite <- ?Hd; done). }
      rewrite Hidx, decide_True by done. cbn [default length app]. unfold id.
      by rewrite Nat.add_1_r.
    - rewrite decide_False by done. cbn [app length]. f_equal. lia. }
  apply (H data []). done.
Qed.

(** ** Replaying the stream on the objects of [parse] *)

Definition namespace_ok (ns : string * jsobject jsvalue) : Prop :=
  key_ok (fst ns) ∧ snd ns ≠ [] ∧ NoDup (map fst (snd ns)) ∧
  Forall (λ kv, key_ok (fst kv) ∧ value_ok (snd kv)) (snd ns).

Definition data_ok (data : nvs_data) : Prop :=
  NoDup (map fst data) ∧ length data ≤ 254 ∧ Forall namespace_ok data.

(** The conditions above can be decided on a concrete input. *)
#[local] Instance jsvalue_eq_dec : EqDecision jsvalue.
Proof. solve_decision. Defined.

#[local] Instance plain_text_dec s : Decision (plain_text s).
Proof. unfold plain_text. apply _. Defined.

#[local] Instance key_ok_dec key : Decision (key_ok key).
Proof. unfold key_ok. apply _. Defined.

#[local] Instance value_ok_dec v : Decision (value_ok v).
Proof. destruct v; cbn [value_ok]; apply _. Defined.

#[local] Instance namespace_ok_dec ns : Decision (namespace_ok ns).
Proof. unfold namespace_ok. apply _. Defined.

#[local] Instance data_ok_dec data : Decision (data_ok data).
Proof. unfold data_ok. apply _. Defined.

#[local] Instance aligned_dec pl : Decision (aligned pl).
Proof. unfold aligned. apply _. Defined.





(** ** Slots before the final cursor *)




(** ** When [generate] returns an image *)

(** A sufficient check on the cursor alone: every entry is created, its
    slots and the headers written lie inside the buffer, and a page
    follows whenever a page is left. *)
Fixpoint fits (N size : nat) (its : list item) (p i : nat) : bool :=
  match its with
  | [] => true
  | it :: its' =>
      match item_entry it with
      | Ok e =>
          (entry_offset p i + 32 * e_span e <=? size)
          && (if fst (next_cursor it e p i) =? p then true
              else (p * PAGE_SIZE + 32 <=? size) && (S p <? N))
          && fits N size its' (fst (next_cursor it e p i))
                  (snd (next_cursor it e p i))
      | Throw _ => false
      end
  end.

Definition encodable (data : nvs_data) (size : nat) : bool :=
  fits (size / PAGE_SIZE) size (stream data) 0 1
  && (last_page data * PAGE_SIZE + 32 <=? size).

Lemma run_ok N size its : ∀ st,
  length (g_binary st) = size →
  fits N size its (g_page st) (g_entry st) = true →
  ∃ st', foldM (generate_item N) its st = Ok st' ∧ length (g_binary st') = size.
Proof.
  induction its as [|it its IH]; intros [b p i] Hlen Hfit;
    cbn [g_binary g_page g_entry fits foldM] in *; [eauto|].
  destruct (item_entry it) as [e|] eqn:He; [|done].
  apply andb_true_iff in Hfit as [Hfit Hrest].
  apply andb_true_iff in Hfit as [Hslots Hsw].
  apply Nat.leb_le in Hslots.
  pose proof (item_entry_bounded _ _ He) as Hb.
  destruct (writeEntry_ok b p i e Hb ltac:(lia)) as [bw Ew].
  pose proof (writeEntry_length _ _ _ _ _ Ew) as Lw.
  destruct it as [name idx|idx k v];
    cbn [generate_item g_binary g_page g_entry item_entry] in *.
  - injection He as <-. rewrite Ew. cbn [rbind].
    apply (IH (mkG bw p (S i))); [cbn; lia|done].
  - unfold generate_kv. cbn [fst snd g_binary g_page g_entry].
    rewrite He. cbn [rbind]. rewrite Ew. cbn [rbind].
    unfold next_cursor in *.
    destruct (Nat.leb_spec ENTRIES_PER_PAGE (i + e_span e)); cbn [fst snd] in *.
    + destruct (Nat.eqb_spec (S p) p); [lia|].
      apply andb_true_iff in Hsw as [Hh HN].
      apply Nat.leb_le in Hh. apply Nat.ltb_lt in HN.
      destruct (finalizePage_ok bw p (i + e_span e) ltac:(lia)) as [bf Ef].
      rewrite Ef. cbn [rbind].
      destruct (Nat.leb_spec N (S p)); [lia|].
      apply (IH (mkG (write_bitmap bf (S p)) (S p) 1)); [|done].
      cbn [g_binary].
      rewrite (same_except_length _ _ _ (write_bitmap_same _ _)),
        (same_except_length _ _ _ (finalizePage_same _ _ _ _ Ef)). lia.
    + apply (IH (mkG bw p (i + e_span e))); [cbn; lia|done].
Qed.

Lemma generate_ok data size :
  encodable data size = true → ∃ b, generate data size = Ok b.
Proof.
  unfold encodable. intros [Hfit Hlast]%andb_true_iff. apply Nat.leb_le in Hlast.
  destruct (run_ok (size / PAGE_SIZE) size (stream data) (initial_state size))
    as (st & E & L).
  - cbn. rewrite (same_except_length _ _ _ (write_bitmap_same _ _)).
    apply length_replicate.
  - done.
  - pose proof (run_spec _ _ (initial_state size) _ (stream_paired data)
                  (stream_cursor_ok data) E) as R.
    destruct (finalizePage_ok (g_binary st) (g_page st) (g_entry st)) as [b Ef].
    + rewrite (rf_page _ _ _ _ R). cbn [initial_state g_page g_entry].
      fold (last_page data). lia.
    + exists b. apply generate_unfold. eauto.
Qed.

(** * The claims *)

(** [n] times the character [c]. *)
Definition chars (n : nat) (c : ascii) : string :=
  string_of_list_ascii (repeat c n).

(** The namespaces of a parsed object, for short statements. *)
Definition parsed_names (r : option (result nvs_data)) : option (list string) :=
  match r with
  | Some (Ok d) => Some (map fst d)
  | _ => None
  end.

(** ** Page boundaries *)

(** A namespace with a string of span 123 followed by a string of span 5:
    the second entry starts at slot 125 of page 0. *)
Definition crossing_input : nvs_data :=
  [("a", [("k1", VStr (chars 3900 "x")); ("k2", VStr (chars 100 "y"))])].

(** C2 fails on the code.  [generate] writes an entry at the cursor
    whatever its span and looks at the page only afterwards.  For
    [crossing_input] and two pages it returns an image in which the entry
    of [k2] starts at slot 125 of page 0 with span 5, so that its payload
    runs over the end of page 0 into the header of page 1, which
    [finalizePage] then overwrites; [parse] reads back another object. *)
Theorem span_crosses_page :
  map (λ pl : placement, (pl.1, e_span pl.2)) (layout (stream crossing_input) 0 1)
  = [((0, 1), 1); ((0, 2), 123); ((0, 125), 5)] ∧
  match generate crossing_input 8192 with
  | Ok b =>
      slice b (entry_offset 0 125) (entry_offset 0 125 + 3) = [1; 33; 5]%Z ∧
      page_state b 1 = Ok PAGE_STATE_ACTIVE ∧
      parsed_names (parse 126 b) = Some ["a"; "ns_121"]
  | Throw _ => False
  end.
Proof. split; [vm_compute; reflexivity|]. vm_compute. repeat split. Qed.

(** ** PartitionTooSmall *)

(** One namespace entry and one string of span 124: 125 slots, what one
    page offers. *)
Definition exact_fill_input : nvs_data :=
  [("a", [("k", VStr (chars 3935 "x"))])].

(** C7 fails on the code.  The stream of [exact_fill_input] takes slots 1
    to 125 of page 0 and so fits a partition of one page exactly, yet
    [generate] throws 'NVS partition size too small for data': it opens the
    next page as soon as the cursor reaches slot 126, before it knows whether
    anything is left to write.  With two pages the same input is encoded. *)
Theorem exact_fill_throws :
  map (λ pl : placement, (pl.1, e_span pl.2)) (layout (stream exact_fill_input) 0 1)
  = [((0, 1), 1); ((0, 2), 124)] ∧
  generate exact_fill_input 4096 = Throw PartitionTooSmall ∧
  (∃ b, generate exact_fill_input 8192 = Ok b).
Proof.
  split; [vm_compute; reflexivity|]. split; [vm_compute; reflexivity|].
  apply generate_ok. vm_compute. reflexivity.
Qed.

(** ** What the entries of an image are *)

Lemma layout_created its : ∀ p i,
  length (layout its p i) = length its →
  Forall (λ it, ∃ e, item_entry it = Ok e) its.
Proof.
  induction its as [|it its IH]; intros p i H; [constructor|].
  cbn [layout] in H. destruct (item_entry it) as [e|] eqn:He; [|done].
  cbn [length] in H. injection H as H. constructor; eauto.
Qed.


Lemma layout_of_item its : ∀ p i it,
  length (layout its p i) = length its → it ∈ its →
  ∃ q j e, item_entry it = Ok e ∧ (q, j, e) ∈ layout its p i.
Proof.
  induction its as [|it0 its IH]; intros p i it H Hin; [by apply elem_of_nil in Hin|].
  cbn [layout] in *. destruct (item_entry it0) as [e0|] eqn:He; [|done].
  cbn [length] in H. injection H as H.
  apply elem_of_cons in Hin as [->|Hin].
  - exists p, i, e0. split; [done|by left].
  - destruct (IH _ _ it H Hin) as (q & j & e & He' & Hpl).
    exists q, j, e. split; [done|by right].
Qed.

Lemma stream_property data ns kvs key v :
  (ns, kvs) ∈ data → (key, v) ∈ kvs →
  ∃ idx, ItemKv idx key v ∈ stream data.
Proof.
  intros Hns Hkv. unfold stream, items_of.
  exists (default 0 (obj_get (build_namespace_map data) ns)).
  apply list_elem_of_In, in_flat_map. exists (ns, kvs).
  split; [by apply list_elem_of_In|].
  unfold items_of_ns. cbn [fst snd].
  destruct kvs as [|kv kvs]; [by apply elem_of_nil in Hkv|].
  change (0 <? length (kv :: kvs)) with true. cbv iota. right.
  apply list_elem_of_In in Hkv.
  apply (in_map (λ kv, ItemKv _ (fst kv) (snd kv)) _ _ Hkv).
Qed.

Lemma image_property data size b ns kvs key v :
  generate data size = Ok b → (ns, kvs) ∈ data → (key, v) ∈ kvs →
  ∃ idx q j e,
    createEntry idx key v = Ok e ∧ (q, j, e) ∈ layout (stream data) 0 1 ∧
    placed b (q, j, e).
Proof.
  intros Hgen Hns Hkv. pose proof (generate_image _ _ _ Hgen) as [_ All Pl _ _ _].
  destruct (stream_property _ _ _ _ _ Hns Hkv) as (idx & Hin).
  destruct (layout_of_item _ 0 1 _ All Hin) as (q & j & e & He & Hpl).
  exists idx, q, j, e. split; [done|]. split; [done|].
  rewrite Forall_forall in Pl. by apply Pl.
Qed.

(** ** Byte slices *)

(** C9 fails on the code: a [Uint8Array] value is neither a string nor a
    number, and [createEntry] throws 'Unsupported value type' for it. *)
Lemma bytes_value_refused :
  generate [("a", [("k", VBytes [1; 2; 3]%Z)])] 4096 = Throw UnsupportedValueType.
Proof. vm_compute. reflexivity. Qed.

(** C9, as the code has it.  [createEntry] refuses every byte slice with the
    unsupported-type error and never gives the BLOB tag, and an input that
    [generate] encodes has only strings and integers as values. *)
Theorem only_strings_and_integers :
  (∀ idx key l, createEntry idx key (VBytes l) = Throw UnsupportedValueType) ∧
  (∀ idx key v e, createEntry idx key v = Ok e → e_type e ≠ TYPE_BLOB) ∧
  (∀ data size b ns kvs key v,
     generate data size = Ok b → (ns, kvs) ∈ data → (key, v) ∈ kvs →
     (∃ s, v = VStr s) ∨ (∃ z, v = VInt z)).
Proof.
  split; [done|]. split.
  - intros idx key v e H.
    apply createEntry_inv in H as (_ & _ & [(s & _ & -> & _)|(z & _ & _ & Hz)]);
      [done|].
    by destruct Hz as [(_ & -> & _)|[(_ & -> & _)|(_ & -> & _)]].
  - intros data size b ns kvs key v Hgen Hns Hkv.
    destruct (image_property _ _ _ _ _ _ _ Hgen Hns Hkv) as (idx & _ & _ & e & He & _).
    apply createEntry_inv in He as (_ & _ & [(s & -> & _)|(z & -> & _)]); eauto.
Qed.

Lemma only_strings_and_integers_witness :
  match generate [("config", [("port", VInt 1883)])] 4096 with
  | Ok b => (∃ s, VInt 1883 = VStr s) ∨ (∃ z, VInt 1883 = VInt z)
  | Throw _ => False
  end.
Proof.
  destruct (generate [("config", [("port", VInt 1883)])] 4096) as [b|e] eqn:E.
  - apply (proj2 (proj2 only_strings_and_integers) _ _ _ "config"
             [("port", VInt 1883)] "port" _ E); by left.
  - vm_compute in E. discriminate E.
Defined.

(** ** Integers *)



Lemma single_property_stream ns key v :
  stream [(ns, [(key, v)])] = [ItemNs ns 1; ItemKv 1 key v].
Proof.
  unfold stream, build_namespace_map, items_of. cbn [fold_left flat_map].
  unfold namespace_map_step, items_of_ns. cbn [fst snd length].
  change (0 <? 1) with true. cbn [fst snd obj_set obj_get].
  rewrite String.eqb_refl. cbn [default map fst snd]. by rewrite app_nil_r.
Qed.




(** ** Payload sizes *)

Lemma createEntry_string idx key s :
  createEntry idx key (VStr s)
  = Ok (mkEntry idx TYPE_STR (1 + ceil_div (String.length s + 1) 32) key
          (text_encode s ++ [0%Z])).
Proof.
  unfold createEntry. cbn [rbind fst snd].
  change (is_str_or_blob TYPE_STR) with true. cbv iota.
  rewrite length_app, length_text_encode. done.
Qed.




(** ** Keys *)











(** ** Size and erased bytes *)



(** ** Entry checksums *)

Lemma calculateCRC32_uint32 w : to_uint32 (calculateCRC32 w) = calculateCRC32 w.
Proof.
  unfold calculateCRC32, js_ushr. rewrite Z.shiftr_0_r. unfold to_uint32.
  by rewrite <- Z.land_assoc, Z.land_diag.
Qed.





(** ** Namespace definitions *)















(** ** Round trip *)




(** * Further properties *)

(** ** Namespaces without properties *)

Definition named (data : list (string * jsobject jsvalue)) : nvs_data :=
  filter (λ ns, has_properties ns = true) data.

Lemma generate_stream data size :
  generate data size
  = (let* st := foldM (generate_item (size / PAGE_SIZE)) (stream data)
                      (initial_state size) in
     if 0 <? g_entry st
     then finalizePage (g_binary st) (g_page st) (g_entry st)
     else Ok (g_binary st)).
Proof. unfold generate. by rewrite generate_items. Qed.

Lemma numbered_stream_named (data : list (string * jsobject jsvalue)) : ∀ k,
  numbered_stream k (named data) = numbered_stream k data.
Proof.
  unfold named. induction data as [|ns data IH]; intros k; [done|].
  rewrite filter_cons. cbn [numbered_stream].
  destruct (has_properties ns) eqn:E.
  - rewrite decide_True by done. cbn [numbered_stream]. by rewrite E, IH.
  - rewrite decide_False by done. apply IH.
Qed.

Lemma NoDup_named (data : list (string * jsobject jsvalue)) :
  NoDup (map fst data) → NoDup (map fst (named data)).
Proof.
  intros H. eapply (sublist_NoDup _ (map fst data)); [exact H|].
  apply (fmap_sublist fst), sublist_filter.
Qed.

Lemma stream_named data :
  NoDup (map fst data) → stream (named data) = stream data.
Proof.
  intros H. rewrite !stream_numbered by auto using NoDup_named.
  apply numbered_stream_named.
Qed.

Lemma generate_named data size :
  NoDup (map fst data) → generate (named data) size = generate data size.
Proof. intros H. by rewrite !generate_stream, stream_named. Qed.


(** X1.  A namespace whose object has no property leaves no trace:
    [generate] gives the same result, image or error, as for the input
    without such namespaces. *)
Theorem empty_namespaces_leave_no_trace data size :
  NoDup (map fst data) → generate data size = generate (named data) size.
Proof. intros H. by rewrite generate_named. Qed.

Lemma empty_namespaces_leave_no_trace_witness :
  generate [("wifi", [("ssid", VStr "net")]); ("empty", [])] 4096
  = generate [("wifi", [("ssid", VStr "net")])] 4096.
Proof.
  apply (empty_namespaces_leave_no_trace
           [("wifi", [("ssid", VStr "net")]); ("empty", [])] 4096).
  apply (bool_decide_unpack _). vm_compute. exact I.
Defined.



(** ** The configuration helpers *)



















(** ** When [generate] throws *)





















(** ** Page headers *)

(** The header [finalizePage] leaves at the start of page [q]. *)
Record header_spec (b : list Z) (q : nat) : Prop := mkHeader {
  hd_state : slice b (q * PAGE_SIZE) (q * PAGE_SIZE + 4) = [254; 255; 255; 255]%Z;
  hd_sequence :
    slice b (q * PAGE_SIZE + 4) (q * PAGE_SIZE + 8)
    = le_bytes 4 (to_uint32 (Z.of_nat q));
  hd_version :
    slice b (q * PAGE_SIZE + 8) (q * PAGE_SIZE + 12) = [255; 255; 255; 255]%Z;
  hd_crc :
    slice b (q * PAGE_SIZE + 28) (q * PAGE_SIZE + 32)
    = le_bytes 4 (calculateCRC32 (slice b (q * PAGE_SIZE) (q * PAGE_SIZE + 28)))
}.

(** The two bytes [generate] writes at the start of slot 0 of page [q]. *)
Definition bitmap_spec (b : list Z) (q : nat) : Prop :=
  b !! bitmap_offset q = Some 170%Z ∧ b !! (bitmap_offset q + 1) = Some 170%Z.

Lemma header_spec_agree b b' q :
  (∀ o, in_header q o → b' !! o = b !! o) → header_spec b q → header_spec b' q.
Proof.
  intros H [H1 H2 H3 H4].
  assert (∀ from to, q * PAGE_SIZE ≤ from → to ≤ q * PAGE_SIZE + 32 →
            slice b' from to = slice b from to) as Hs.
  { intros from to ??. apply slice_agree. intros o Ho. apply H.
    unfold in_header, in_range in *. lia. }
  split; rewrite !Hs by lia; done.
Qed.

Lemma bitmap_spec_agree b b' q :
  (∀ o, in_bitmap q o → b' !! o = b !! o) → bitmap_spec b q → bitmap_spec b' q.
Proof.
  intros H [H1 H2]. split; rewrite H; try done; unfold in_bitmap, in_range; lia.
Qed.

Lemma write_bitmap_spec b q :
  bitmap_offset q + 2 ≤ length b → bitmap_spec (write_bitmap b q) q.
Proof.
  intros Hb. unfold write_bitmap. split.
  - rewrite (same_except_lookup _ _ _ _ (store_same _ _ _))
      by (unfold in_range; lia).
    by rewrite store_lookup by lia.
  - rewrite store_lookup; [done|].
    rewrite (same_except_length _ _ _ (store_same _ _ _)). lia.
Qed.

(** [finalizePage] touches the first twelve and the last four bytes of the
    header, whatever [numEntries] is. *)
Definition header_written (p : nat) (o : nat) : Prop :=
  in_range (p * PAGE_SIZE) (p * PAGE_SIZE + 12) o ∨
  in_range (p * PAGE_SIZE + 28) (p * PAGE_SIZE + 32) o.

Lemma finalizePage_header b p n b' :
  finalizePage b p n = Ok b' →
  header_spec b' p ∧ same_except (header_written p) b b'.
Proof.
  unfold finalizePage. intros H.
  destruct (setUint32 b _ _) as [b1|] eqn:E1; [|done]. simpl in H.
  destruct (setUint32 b1 _ _) as [b2|] eqn:E2; [|done]. simpl in H.
  destruct (setUint32 b2 _ _) as [b3|] eqn:E3; [|done]. simpl in H.
  pose proof (setUint32_same _ _ _ _ E1) as F1.
  pose proof (setUint32_same _ _ _ _ E2) as F2.
  pose proof (setUint32_same _ _ _ _ E3) as F3.
  pose proof (setUint32_same _ _ _ _ H) as F4.
  set (off := p * PAGE_SIZE) in *.
  assert (∀ (l : list Z) from,
            (∀ j, j < length l → b' !! (from + j) = l !! j) →
            slice b' from (from + length l) = l) as Hsl
    by (intros; by apply slice_eq_lookup).
  split; [split|]; fold off.
  - apply (Hsl [254; 255; 255; 255]%Z off). intros j Hj. cbn [length] in Hj.
    rewrite (same_except_lookup _ _ _ _ F4) by (unfold in_range; lia).
    rewrite (same_except_lookup _ _ _ _ F3) by (unfold in_range; lia).
    rewrite (same_except_lookup _ _ _ _ F2) by (unfold in_range; lia).
    replace (off + j) with (off + 0 + j) by lia.
    by apply (set_bytes_lookup _ _ _ _ _ E1); rewrite length_le_bytes.
  - replace (off + 8)
      with (off + 4 + length (le_bytes 4 (to_uint32 (Z.of_nat p))))
      by (rewrite length_le_bytes; lia).
    apply Hsl. intros j Hj. rewrite length_le_bytes in Hj.
    rewrite (same_except_lookup _ _ _ _ F4) by (unfold in_range; lia).
    rewrite (same_except_lookup _ _ _ _ F3) by (unfold in_range; lia).
    by apply (set_bytes_lookup _ _ _ _ _ E2); rewrite length_le_bytes.
  - replace (off + 12) with (off + 8 + 4) by lia.
    apply (Hsl [255; 255; 255; 255]%Z (off + 8)). intros j Hj. cbn [length] in Hj.
    rewrite (same_except_lookup _ _ _ _ F4) by (unfold in_range; lia).
    by apply (set_bytes_lookup _ _ _ _ _ E3); rewrite length_le_bytes.
  - rewrite (slice_agree b3 b' off (off + 28)).
    2:{ intros o Ho. apply (same_except_lookup _ _ _ _ F4). unfold in_range in *. lia. }
    set (crc := calculateCRC32 (slice b3 off (off + 28))) in *.
    replace (off + 32) with (off + 28 + length (le_bytes 4 crc))
      by (rewrite length_le_bytes; lia).
    apply Hsl. intros j Hj. rewrite length_le_bytes in Hj.
    rewrite (set_bytes_lookup _ _ _ _ _ H) by (by rewrite length_le_bytes).
    unfold crc. by rewrite calculateCRC32_uint32.
  - eapply same_except_trans; [|eapply same_except_trans;
      [|eapply same_except_trans]].
    + eapply same_except_weaken; [apply F1|]. unfold header_written, in_range. lia.
    + eapply same_except_weaken; [apply F2|]. unfold header_written, in_range. lia.
    + eapply same_except_weaken; [apply F3|]. unfold header_written, in_range. lia.
    + eapply same_except_weaken; [apply F4|]. unfold header_written, in_range. lia.
Qed.

Lemma generate_item_switch N st it st1 :
  generate_item N st it = Ok st1 → g_page st1 ≠ g_page st →
  ∃ bw bf n,
    finalizePage bw (g_page st) n = Ok bf ∧
    g_binary st1 = write_bitmap bf (S (g_page st)) ∧
    g_page st1 = S (g_page st) ∧ S (g_page st) < N.
Proof.
  destruct st as [b p i]. cbn [g_binary g_page g_entry]. intros H Hne.
  destruct it as [name idx|idx k v]; cbn [generate_item g_binary g_page g_entry] in H.
  - destruct (writeEntry b p i _) as [bw|]; [|done]. cbn [rbind] in H.
    injection H as <-. done.
  - unfold generate_kv in H. cbn [fst snd g_binary g_page g_entry] in H.
    destruct (createEntry idx k v) as [e|]; [|done]. cbn [rbind] in H.
    destruct (writeEntry b p i e) as [bw|]; [|done]. cbn [rbind] in H.
    destruct (ENTRIES_PER_PAGE <=? i + e_span e).
    + destruct (finalizePage bw p (i + e_span e)) as [bf|] eqn:Ef; [|done].
      cbn [rbind] in H. destruct (Nat.leb_spec N (S p)); [done|].
      injection H as <-. cbn [g_binary g_page]. by exists bw, bf, (i + e_span e).
    + injection H as <-. done.
Qed.

Definition page_spec (b : list Z) (q : nat) : Prop :=
  header_spec b q ∧ bitmap_spec b q.

Lemma run_headers N its : ∀ st st',
  paired its → cursor_ok its (g_entry st) →
  N * PAGE_SIZE ≤ length (g_binary st) →
  foldM (generate_item N) its st = Ok st' →
  (∀ q, q < g_page st → page_spec (g_binary st) q) →
  bitmap_spec (g_binary st) (g_page st) →
  (∀ q, q < g_page st' → page_spec (g_binary st') q) ∧
  bitmap_spec (g_binary st') (g_page st').
Proof.
  induction its as [|it its IH]; intros st st' Hp Hc HN H Hpages Hbm.
  - cbn [foldM] in H. by injection H as <-.
  - cbn [foldM] in H.
    destruct (generate_item N st it) as [st1|] eqn:E1; [|done]. cbn [rbind] in H.
    pose proof (cursor_ok_le _ _ Hc) as Hi.
    destruct (generate_item_step _ _ _ _ E1 Hi)
      as (e & He & Hp1 & Hi1 & _ & Fr & _).
    destruct (cursor_ok_next _ _ _ (g_page st) _ Hp Hc He) as [Hp' Hc'].
    rewrite <- Hi1 in Hc'.
    pose proof (same_except_length _ _ _ Fr) as L1.
    assert (∀ o, o < bitmap_offset (g_page st) + 2 → ¬ in_header (g_page st) o →
              g_binary st1 !! o = g_binary st !! o) as Hkeep.
    { intros o Ho Hh. apply (same_except_lookup _ _ _ _ Fr).
      intros [Hs|[_ [?|Hb]]]; [|done|]; unfold_layout; lia. }
    apply (IH st1 st' Hp' Hc'); [lia|done| |].
    + intros q Hq.
      destruct (decide (q < g_page st)) as [Hlt|Hge].
      * destruct (Hpages q Hlt) as [Hh Hb]. split.
        -- eapply header_spec_agree; [|exact Hh]. intros o Ho.
           apply Hkeep; unfold_layout; lia.
        -- eapply bitmap_spec_agree; [|exact Hb]. intros o Ho.
           apply Hkeep; unfold_layout; lia.
      * assert (g_page st1 ≠ g_page st) as Hne by lia.
        destruct (generate_item_switch _ _ _ _ E1 Hne)
          as (bw & bf & n & Ef & Hb1 & Hpg & _).
        assert (q = g_page st) as -> by lia. split.
        -- rewrite Hb1. eapply header_spec_agree;
             [|apply (finalizePage_header _ _ _ _ Ef)].
           intros o Ho.
           apply (same_except_lookup _ _ _ _ (write_bitmap_same bf (S (g_page st)))).
           unfold_layout. lia.
        -- eapply bitmap_spec_agree; [|exact Hbm]. intros o Ho.
           apply Hkeep; unfold_layout; lia.
    + destruct (decide (g_page st1 = g_page st)) as [Heq|Hne].
      * rewrite Heq. eapply bitmap_spec_agree; [|exact Hbm]. intros o Ho.
        apply Hkeep; unfold_layout; lia.
      * destruct (generate_item_switch _ _ _ _ E1 Hne)
          as (bw & bf & n & Ef & Hb1 & Hpg & HS).
        rewrite Hpg, Hb1. apply write_bitmap_spec.
        assert (length bf = length (g_binary st)) as ->.
        { rewrite <- L1, Hb1.
          by rewrite (same_except_length _ _ _ (write_bitmap_same bf _)). }
        unfold_layout. nia.
Qed.

Lemma image_pages data size b :
  PAGE_SIZE ≤ size → generate data size = Ok b →
  ∀ q, q ≤ last_page data → page_spec b q.
Proof.
  intros Hsize Hgen q Hq.
  apply generate_unfold in Hgen as (st & Hrun & Hfin).
  pose proof (run_spec _ _ (initial_state size) _ (stream_paired data)
                (stream_cursor_ok data) Hrun) as [Hpage _ _ _ _ _ _].
  cbn [initial_state g_page g_entry] in Hpage. fold (last_page data) in Hpage.
  assert (length (g_binary (initial_state size)) = size) as L0.
  { cbn [initial_state g_binary].
    by rewrite (same_except_length _ _ _ (write_bitmap_same _ 0)), length_replicate. }
  assert (size / PAGE_SIZE * PAGE_SIZE ≤ length (g_binary (initial_state size)))
    as HN by (rewrite L0, Nat.mul_comm; apply Nat.Div0.mul_div_le).
  destruct (run_headers _ _ (initial_state size) _ (stream_paired data)
              (stream_cursor_ok data) HN Hrun) as [Hpages Hbm].
  { intros q' Hq'. cbn [initial_state g_page] in Hq'. lia. }
  { cbn [initial_state g_page g_binary]. apply write_bitmap_spec.
    rewrite length_replicate. unfold_layout. lia. }
  pose proof (finalizePage_header _ _ _ _ Hfin) as [Hh _].
  pose proof (finalizePage_same _ _ _ _ Hfin) as Ff.
  rewrite Hpage in *.
  destruct (decide (q = last_page data)) as [->|Hne].
  - split; [done|]. eapply bitmap_spec_agree; [|exact Hbm]. intros o Ho.
    apply (same_except_lookup _ _ _ _ Ff). unfold_layout. lia.
  - destruct (Hpages q ltac:(lia)) as [Hh' Hb']. split.
    + eapply header_spec_agree; [|exact Hh']. intros o Ho.
      apply (same_except_lookup _ _ _ _ Ff). unfold_layout. lia.
    + eapply bitmap_spec_agree; [|exact Hb']. intros o Ho.
      apply (same_except_lookup _ _ _ _ Ff). unfold_layout. lia.
Qed.



(** X8.  In an image of [generate] for a partition of at least one page,
    every page up to the last one used has the header of [finalizePage]
    (state ACTIVE, its index as sequence number, version bytes 0xFF, the
    CRC32 of its first 28 bytes in its last 4) and the two bytes 0xAA at
    the start of slot 0. *)
Theorem image_page_headers data size b :
  PAGE_SIZE ≤ size → generate data size = Ok b →
  ∀ q, q ≤ last_page data → header_spec b q ∧ bitmap_spec b q.
Proof. apply image_pages. Qed.

Lemma image_page_headers_witness :
  match generate [("config", [("port", VInt 1883)])] 4096 with
  | Ok b => header_spec b 0 ∧ bitmap_spec b 0
  | Throw _ => False
  end.
Proof.
  destruct (generate [("config", [("port", VInt 1883)])] 4096) as [b|e] eqn:E.
  - apply (image_page_headers [("config", [("port", VInt 1883)])] 4096 b).
    + apply Nat.leb_le. vm_compute. reflexivity.
    + exact E.
    + lia.
  - vm_compute in E. discriminate E.
Defined.

(** ** One entry written and read *)





(** ** Pages that [parse] skips *)

Definition blank_page (b : list Z) (q : nat) : Prop :=
  page_state b q = Ok PAGE_STATE_EMPTY ∨ page_state b q = Ok 0%Z.

Lemma parse_pages_blank F b st n : ∀ p,
  (∀ q, p ≤ q < p + n → blank_page b q) →
  parse_pages F b (seq p n) st = Some (Ok st).
Proof.
  induction n as [|n IH]; intros p H; cbn [seq parse_pages]; [done|].
  unfold parse_page. pose proof (H p ltac:(lia)) as Hs.
  unfold blank_page, page_state in Hs.
  assert (∀ q, S p ≤ q < S p + n → blank_page b q) as H'
    by (intros q Hq; apply H; lia).
  destruct Hs as [Hs|Hs]; rewrite Hs.
  - change ((PAGE_STATE_EMPTY =? PAGE_STATE_EMPTY)%Z || (PAGE_STATE_EMPTY =? 0)%Z)
      with true. cbv iota. by apply IH.
  - change ((0 =? PAGE_STATE_EMPTY)%Z || (0 =? 0)%Z) with true. cbv iota.
    by apply IH.
Qed.

Lemma parse_blank fuel b :
  (∀ q, q < length b / PAGE_SIZE → blank_page b q) →
  parse fuel b = Some (Ok []).
Proof.
  intros H. unfold parse. rewrite parse_pages_blank; [done|].
  intros q Hq. apply H. lia.
Qed.

Lemma lookup_replicate_lt {A} (x : A) n o : o < n → replicate n x !! o = Some x.
Proof. intros. by apply lookup_replicate_2. Qed.

Lemma page_state_fill (v : Z) n q :
  q < n / PAGE_SIZE →
  page_state (replicate n v) q = Ok (le_value [v; v; v; v]).
Proof.
  intros Hq.
  assert (S q * PAGE_SIZE ≤ n) as Hn.
  { pose proof (Nat.Div0.mul_div_le n PAGE_SIZE). unfold PAGE_SIZE in *. nia. }
  unfold page_state, getUint32.
  apply (getUint_lookup 4 _ _ [v; v; v; v]); [done| |].
  - rewrite length_replicate. unfold PAGE_SIZE in *. lia.
  - intros j Hj. rewrite lookup_replicate_lt by (unfold PAGE_SIZE in *; lia).
    by do 4 (destruct j as [|j]; [done|]); lia.
Qed.

Lemma parse_short fuel b : length b < PAGE_SIZE → parse fuel b = Some (Ok []).
Proof.
  intros H. apply parse_blank. intros q Hq.
  rewrite Nat.div_small in Hq by done. lia.
Qed.

Lemma parse_fill fuel n (v : Z) :
  v = 255%Z ∨ v = 0%Z → parse fuel (replicate n v) = Some (Ok []).
Proof.
  intros Hv. apply parse_blank. intros q Hq. rewrite length_replicate in Hq.
  unfold blank_page. rewrite page_state_fill by done.
  destruct Hv as [->| ->]; [by left|by right].
Qed.

(** ** An entry of span 0 *)

Definition value_types : list Z :=
  [TYPE_U8; TYPE_I8; TYPE_U16; TYPE_I16; TYPE_U32; TYPE_I32; TYPE_STR; TYPE_BLOB].

Lemma getUint_in_range n b off :
  off + n ≤ length b → ∃ v, getUint n b off = Ok v.
Proof. intros H. unfold getUint. rewrite read_bytes_ok by done. by eexists. Qed.

Lemma parse_value_span_0 b off ty :
  off + 32 ≤ length b → ty ∈ value_types →
  ∃ v, parse_value b off ty 0 = Ok (Some v).
Proof.
  intros Hb Hty. unfold parse_value.
  destruct (getUint_in_range 1 b (off + 24) ltac:(lia)) as [v1 H1].
  destruct (getUint_in_range 2 b (off + 24) ltac:(lia)) as [v2 H2].
  destruct (getUint_in_range 4 b (off + 24) ltac:(lia)) as [v4 H4].
  destruct (getUint_in_range 2 b (off + 20) ltac:(lia)) as [w2 G2].
  unfold getUint8, getUint16, getUint32, getInt8, getInt16, getInt32.
  rewrite H1, H2, H4, G2. cbn [rbind read_chunks].
  rewrite (read_bytes_ok b (off + 24)) by lia.
  unfold value_types in Hty.
  repeat (apply elem_of_cons in Hty as [->|Hty]; [by eexists|]).
  by apply elem_of_nil in Hty.
Qed.

Lemma parse_entry_span_0 b i st ns ty :
  PAGE_SIZE ≤ length b → 1 ≤ i ≤ 125 →
  b !! entry_offset 0 i = Some ns → ns ≠ 255%Z →
  b !! (entry_offset 0 i + 1) = Some ty → ty ∈ value_types →
  b !! (entry_offset 0 i + 2) = Some 0%Z →
  ∃ st', parse_entry b (0 * PAGE_SIZE) i st = Ok (st', i).
Proof.
  intros Hb Hi Hns Hne Hty Hin Hsp.
  assert (entry_offset 0 i + 32 ≤ length b) as Hoff by (unfold_layout; lia).
  unfold parse_entry. fold (entry_offset 0 i).
  rewrite (getUint8_lookup _ _ ns) by done. cbn [rbind].
  destruct (Z.eqb_spec ns 255) as [|_]; [done|].
  rewrite (getUint8_lookup _ _ ty), (getUint8_lookup _ _ 0%Z) by done.
  cbn [rbind]. rewrite read_bytes_ok by lia. cbn [rbind].
  change (Z.to_nat 0) with 0. rewrite Nat.add_0_r.
  destruct ((ty =? 1)%Z && (ns =? 0)%Z).
  - destruct (getUint_in_range 1 b (entry_offset 0 i + 24) ltac:(lia)) as [v Hv].
    unfold getUint8. rewrite Hv. cbn [rbind]. by eexists.
  - destruct (parse_value_span_0 b (entry_offset 0 i) ty Hoff Hin) as [v Hv].
    rewrite Hv. cbn [rbind]. by eexists.
Qed.

Lemma parse_entries_stuck b i ns ty :
  PAGE_SIZE ≤ length b → 1 ≤ i ≤ 125 →
  b !! entry_offset 0 i = Some ns → ns ≠ 255%Z →
  b !! (entry_offset 0 i + 1) = Some ty → ty ∈ value_types →
  b !! (entry_offset 0 i + 2) = Some 0%Z →
  ∀ fuel st, parse_entries fuel b (0 * PAGE_SIZE) i st = None.
Proof.
  intros Hb Hi Hns Hne Hty Hin Hsp fuel.
  induction fuel as [|fuel IH]; intros st; cbn [parse_entries];
    unfold ENTRIES_PER_PAGE at 1; destruct (Nat.leb_spec 126 i); try lia; [done|].
  destruct (parse_entry_span_0 b i st ns ty) as [st' ->]; auto.
Qed.

Lemma parse_entries_reach b i :
  (∀ fuel st, parse_entries fuel b (0 * PAGE_SIZE) i st = None) → i ≤ 125 →
  ∀ d j, j + d = i →
    (∀ k, j ≤ k < i → b !! entry_offset 0 k = Some 255%Z) →
    ∀ fuel st, parse_entries fuel b (0 * PAGE_SIZE) j st = None.
Proof.
  intros Hstuck Hi. induction d as [|d IH]; intros j Hj Hfree fuel st.
  - replace j with i by lia. apply Hstuck.
  - destruct fuel as [|fuel]; cbn [parse_entries];
      unfold ENTRIES_PER_PAGE at 1; destruct (Nat.leb_spec 126 j); try lia; [done|].
    unfold parse_entry. fold (entry_offset 0 j).
    rewrite (getUint8_lookup _ _ 255%Z) by (apply Hfree; lia). cbn [rbind].
    change (255 =? 255)%Z with true. cbv iota.
    apply IH; [lia|]. intros k Hk. apply Hfree. lia.
Qed.

Lemma parse_never_returns b :
  PAGE_SIZE ≤ length b → ¬ blank_page b 0 →
  (∀ fuel st, parse_entries fuel b (0 * PAGE_SIZE) 1 st = None) →
  ∀ fuel, parse fuel b = None.
Proof.
  intros Hb Hblank Hstuck fuel.
  assert (∃ n, length b / PAGE_SIZE = S n) as [n Hn].
  { assert (1 ≤ length b / PAGE_SIZE)
      by (apply Nat.div_str_pos; unfold PAGE_SIZE in *; lia).
    exists (length b / PAGE_SIZE - 1). lia. }
  unfold parse. rewrite Hn. cbn [seq parse_pages]. unfold parse_page.
  destruct (getUint_in_range 4 b (0 * PAGE_SIZE)) as [s Hs];
    [unfold PAGE_SIZE in *; lia|].
  unfold getUint32. rewrite Hs.
  destruct ((s =? PAGE_STATE_EMPTY)%Z || (s =? 0)%Z) eqn:E.
  { exfalso. apply Hblank. unfold blank_page, page_state, getUint32. rewrite Hs.
    apply orb_true_iff in E as [E|E]; apply Z.eqb_eq in E; subst; auto. }
  by rewrite Hstuck.
Qed.

Lemma parse_stuck b i ns ty :
  PAGE_SIZE ≤ length b →
  ¬ blank_page b 0 →
  1 ≤ i ≤ 125 →
  (∀ k, 1 ≤ k < i → b !! entry_offset 0 k = Some 255%Z) →
  b !! entry_offset 0 i = Some ns → ns ≠ 255%Z →
  b !! (entry_offset 0 i + 1) = Some ty → ty ∈ value_types →
  b !! (entry_offset 0 i + 2) = Some 0%Z →
  ∀ fuel, parse fuel b = None.
Proof.
  intros Hb Hblank Hi Hfree Hns Hne Hty Hin Hsp.
  apply parse_never_returns; [done|done|].
  apply (parse_entries_reach b i) with (d := i - 1); try done; try lia.
  by apply (parse_entries_stuck b i ns ty).
Qed.

Lemma generated_span_0 ns key s size b :
  key_ok ns → PAGE_SIZE ≤ size →
  (Z.of_nat (1 + ceil_div (String.length s + 1) 32) mod 256 = 0)%Z →
  generate [(ns, [(key, VStr s)])] size = Ok b →
  ∀ fuel, parse fuel b = None.
Proof.
  intros Hns Hsize Hspan Hgen.
  pose proof (generate_image _ _ _ Hgen) as [L _ Pl Pg _ _].
  rewrite single_property_stream in Pl. cbn [layout item_entry] in Pl.
  rewrite createEntry_string in Pl.
  apply Forall_cons in Pl as [P1 Pl]. apply Forall_cons in Pl as [[H2 _] _].
  cbn [next_cursor fst snd] in *.
  set (e := mkEntry 1 TYPE_STR (1 + ceil_div (String.length s + 1) 32) key
                    (text_encode s ++ [0%Z])) in *.
  apply parse_never_returns.
  - by rewrite L.
  - unfold blank_page. rewrite (Pg 0) by lia. intros [?|?]; discriminate.
  - intros fuel st. destruct fuel as [|fuel]; [done|].
    cbn [parse_entries]. change (ENTRIES_PER_PAGE <=? 1) with false. cbv iota.
    rewrite (parse_entry_placed b 0 1 (ItemNs ns 1) (ns_entry ns 1) st);
      try done; try (cbn; lia).
    + cbn [ns_entry e_span].
      destruct H2 as [Hn Ht Hs _ _ _ _]. cbn [e e_namespace e_type e_span] in *.
      apply (parse_entries_stuck b 2 1%Z 33%Z); try done; try lia.
      * unfold value_types. do 6 right. left.
      * rewrite Hs. unfold to_uint8. by rewrite Hspan.
    + split; [done|lia].
Qed.

(** X10.  [parse] returns the empty object, whatever the fuel, for a
    buffer all of whose pages have the state word 0xFFFFFFFF or 0: in
    particular for a buffer shorter than one page, which has no page at
    all, and for an erased or zeroed buffer of any length. *)
Theorem parse_skips_blank_pages :
  (∀ fuel b, (∀ q, q < length b / PAGE_SIZE → blank_page b q) →
             parse fuel b = Some (Ok [])) ∧
  (∀ fuel b, length b < PAGE_SIZE → parse fuel b = Some (Ok [])) ∧
  (∀ fuel n, parse fuel (replicate n 255%Z) = Some (Ok [])) ∧
  (∀ fuel n, parse fuel (replicate n 0%Z) = Some (Ok [])).
Proof.
  split; [|split; [|split]].
  - apply parse_blank.
  - apply parse_short.
  - intros fuel n. apply parse_fill. by left.
  - intros fuel n. apply parse_fill. by right.
Qed.

Lemma parse_skips_blank_pages_witness :
  parse 0 [1; 2; 3]%Z = Some (Ok []).
Proof.
  apply (proj1 (proj2 parse_skips_blank_pages) 0 [1; 2; 3]%Z).
  vm_compute. lia.
Defined.

(** X11.  The entry loop of [parse] does not advance over a used entry
    whose span byte is 0: when the first used slot of page 0 is such an
    entry of any of the eight types, [parse] returns for no fuel at all. *)
Theorem parse_never_returns_on_span_zero b i ns ty :
  PAGE_SIZE ≤ length b →
  ¬ blank_page b 0 →
  1 ≤ i ≤ 125 →
  (∀ k, 1 ≤ k < i → b !! entry_offset 0 k = Some 255%Z) →
  b !! entry_offset 0 i = Some ns → ns ≠ 255%Z →
  b !! (entry_offset 0 i + 1) = Some ty → ty ∈ value_types →
  b !! (entry_offset 0 i + 2) = Some 0%Z →
  ∀ fuel, parse fuel b = None.
Proof. apply parse_stuck. Qed.

(** A page with the state ACTIVE and one slot: namespace 1, type U8,
    span 0. *)
Definition span_zero_image : list Z :=
  ([254; 255; 255; 255] ++ replicate 60 255 ++ [1; 1; 0] ++ replicate 4029 255)%Z.

Lemma parse_never_returns_on_span_zero_witness :
  parse 1000 span_zero_image = None.
Proof.
  apply (parse_never_returns_on_span_zero span_zero_image 1 1%Z 1%Z).
  - apply Nat.leb_le. vm_compute. reflexivity.
  - unfold blank_page. vm_compute. intros [H|H]; discriminate H.
  - lia.
  - intros k Hk. lia.
  - reflexivity.
  - discriminate.
  - reflexivity.
  - unfold value_types. left.
  - reflexivity.
Defined.

(** X12.  [generate] itself writes such entries: for a namespace with one
    string property whose span is a multiple of 256 (a string of 8128 to
    8159 bytes has span 256) the span byte of the image is 0, and [parse]
    returns for no fuel on the image. *)
Theorem parse_never_returns_on_generated_span ns key s size b :
  key_ok ns → PAGE_SIZE ≤ size →
  (Z.of_nat (1 + ceil_div (String.length s + 1) 32) mod 256 = 0)%Z →
  generate [(ns, [(key, VStr s)])] size = Ok b →
  ∀ fuel, parse fuel b = None.
Proof. apply generated_span_0. Qed.

Lemma parse_never_returns_on_generated_span_witness :
  ∃ b, generate [("a", [("k", VStr (chars 8128 "x"))])] 12288 = Ok b ∧
       ∀ fuel, parse fuel b = None.
Proof.
  destruct (generate_ok [("a", [("k", VStr (chars 8128 "x"))])] 12288)
    as [b Hb]; [vm_compute; reflexivity|].
  exists b. split; [exact Hb|].
  apply (parse_never_returns_on_generated_span "a" "k" (chars 8128 "x") 12288 b).
  - apply (bool_decide_unpack _). vm_compute. exact I.
  - apply Nat.leb_le. vm_compute. reflexivity.
  - vm_compute. reflexivity.
  - exact Hb.
Defined.

(** ** What [parse] reads of an entry *)

Lemma read_bytes_agree b b' off n :
  length b' = length b →
  (∀ o, in_range off (off + n) o → b' !! o = b !! o) →
  read_bytes b' off n = read_bytes b off n.
Proof.
  intros L H. unfold read_bytes. rewrite L.
  destruct (_ <=? _); [|done]. f_equal.
  apply list_eq. intros j. rewrite !lookup_take, !lookup_drop.
  case_decide; [|done]. apply H. unfold in_range. lia.
Qed.

Lemma getUint_agree n b b' off :
  length b' = length b →
  (∀ o, in_range off (off + n) o → b' !! o = b !! o) →
  getUint n b' off = getUint n b off.
Proof. intros L H. unfold getUint. by rewrite (read_bytes_agree b b'). Qed.

Lemma read_chunks_agree b b' off strLen n : ∀ total bytesRead s,
  length b' = length b → 1 ≤ s →
  (∀ o, off + 32 ≤ o → b' !! o = b !! o) →
  read_chunks b' off strLen total bytesRead s n
  = read_chunks b off strLen total bytesRead s n.
Proof.
  induction n as [|n IH]; intros total bytesRead s L Hs H; [done|].
  cbn [read_chunks]. rewrite (read_bytes_agree b b') by
    (done || (intros o Ho; apply H; unfold in_range, ENTRY_SIZE in *; nia)).
  destruct (read_bytes b _ _); [|done]. cbn [rbind]. apply IH; [done|lia|done].
Qed.

Lemma parse_value_agree b b' off type span :
  length b' = length b →
  (∀ o, off + 20 ≤ o → b' !! o = b !! o) →
  parse_value b' off type span = parse_value b off type span.
Proof.
  intros L H. unfold parse_value, getUint8, getUint16, getUint32,
    getInt8, getInt16, getInt32.
  assert (∀ n k, 20 ≤ k → getUint n b' (off + k) = getUint n b (off + k)) as Hg.
  { intros n k Hk. apply getUint_agree; [done|]. intros o Ho. apply H.
    unfold in_range in Ho. lia. }
  rewrite !Hg by lia.
  repeat (destruct (_ =? _)%Z; [done|]).
  destruct (_ =? _)%Z.
  { destruct (getUint 2 b (off + 24)); [|done]. cbn [rbind].
    rewrite (read_chunks_agree b b'); [done|done|lia|].
    intros o Ho. apply H. lia. }
  destruct (_ =? _)%Z; [|done].
  destruct (getUint 2 b (off + 20)); [|done]. cbn [rbind].
  rewrite (read_bytes_agree b b'); [done|done|].
  intros o Ho. apply H. unfold in_range in Ho. lia.
Qed.

Lemma parse_entry_agree b b' pageOffset entryIdx st :
  length b' = length b →
  (∀ o, ¬ in_range (pageOffset + 32 + entryIdx * ENTRY_SIZE + 4)
                   (pageOffset + 32 + entryIdx * ENTRY_SIZE + 8) o →
        b' !! o = b !! o) →
  parse_entry b' pageOffset entryIdx st = parse_entry b pageOffset entryIdx st.
Proof.
  intros L H. unfold parse_entry, getUint8.
  set (off := pageOffset + 32 + entryIdx * ENTRY_SIZE) in *.
  assert (∀ n k, k + n ≤ 4 ∨ 8 ≤ k →
            getUint n b' (off + k) = getUint n b (off + k)) as Hg.
  { intros n k Hk. apply getUint_agree; [done|]. intros o Ho. apply H.
    unfold in_range in *. lia. }
  assert (∀ type span,
            parse_value b' off type span = parse_value b off type span) as Hv.
  { intros type span. apply parse_value_agree; [done|].
    intros o Ho. apply H. unfold in_range. lia. }
  replace off with (off + 0) at 1 2 by lia. rewrite (Hg 1 0) by lia.
  destruct (getUint 1 b (off + 0)) as [namespace|]; [|done]. cbn [rbind].
  destruct (namespace =? 255)%Z; [done|].
  rewrite (Hg 1 1) by lia.
  destruct (getUint 1 b (off + 1)) as [type|]; [|done]. cbn [rbind].
  rewrite (Hg 1 2) by lia.
  destruct (getUint 1 b (off + 2)) as [span|]; [|done]. cbn [rbind].
  rewrite (read_bytes_agree b b' (off + 8) 16)
    by (done || (intros o Ho; apply H; unfold in_range in *; lia)).
  destruct (read_bytes b (off + 8) 16) as [keyBytes|]; [|done]. cbn [rbind].
  rewrite (Hg 1 24) by lia. by rewrite Hv.
Qed.

(** X13.  [parse] does not look at the checksum of an entry: one turn of
    its entry loop gives the same result on two buffers that differ only in
    bytes 4 to 7 of the slot it reads. *)
Theorem parse_entry_ignores_crc b b' pageOffset entryIdx st :
  length b' = length b →
  (∀ o, ¬ in_range (pageOffset + 32 + entryIdx * ENTRY_SIZE + 4)
                   (pageOffset + 32 + entryIdx * ENTRY_SIZE + 8) o →
        b' !! o = b !! o) →
  parse_entry b' pageOffset entryIdx st = parse_entry b pageOffset entryIdx st.
Proof. apply parse_entry_agree. Qed.

Lemma parse_entry_ignores_crc_witness :
  parse_entry (replicate 68 1 ++ [9; 9; 9; 9] ++ replicate 56 1)%Z 0 1
              (mkP [] (λ _, None))
  = parse_entry (replicate 68 1 ++ [0; 0; 0; 0] ++ replicate 56 1)%Z 0 1
                (mkP [] (λ _, None)).
Proof.
  apply (parse_entry_ignores_crc
           (replicate 68 1 ++ [0; 0; 0; 0] ++ replicate 56 1)%Z
           (replicate 68 1 ++ [9; 9; 9; 9] ++ replicate 56 1)%Z 0 1).
  - reflexivity.
  - intros o Ho. unfold in_range, ENTRY_SIZE in Ho.
    destruct (decide (o < 68)) as [Hlt|Hge].
    + by rewrite !lookup_app_l by (rewrite length_replicate; lia).
    + rewrite !lookup_app_r by (rewrite ?length_replicate; cbn [length]; lia).
      rewrite !length_replicate. cbn [length]. done.
Defined.

Local Open Scope Z_scope.

(** ** The checksum *)

(** Two numbers with the same low 32 bits. *)
Definition eq32 (x y : Z) : Prop := to_uint32 x = to_uint32 y.

Lemma to_uint32_bits z n :
  0 ≤ n → Z.testbit (to_uint32 z) n = Z.testbit z n && (n <? 32).
Proof.
  intros Hn. unfold to_uint32. change 4294967295 with (Z.ones 32).
  rewrite Z.land_spec. by rewrite Z.testbit_ones_nonneg by lia.
Qed.

Lemma to_int32_bits z n :
  0 ≤ n < 32 → Z.testbit (to_int32 z) n = Z.testbit z n.
Proof.
  intros Hn. unfold to_int32.
  assert (Z.testbit (to_uint32 z) n = Z.testbit z n) as Hu.
  { rewrite to_uint32_bits by lia. destruct (Z.ltb_spec n 32); [|lia].
    by rewrite andb_true_r. }
  destruct (_ <? _); [done|].
  rewrite <- Hu, <- (Z.mod_pow2_bits_low (to_uint32 z - 4294967296) 32 n) by lia.
  rewrite <- (Z.mod_pow2_bits_low (to_uint32 z) 32 n) by lia.
  f_equal. change 4294967296 with (2 ^ 32).
  replace (to_uint32 z - 2 ^ 32) with (to_uint32 z + (-1) * 2 ^ 32) by lia.
  by rewrite Z_mod_plus_full.
Qed.

Lemma eq32_bits x y :
  eq32 x y ↔ ∀ n, 0 ≤ n < 32 → Z.testbit x n = Z.testbit y n.
Proof.
  unfold eq32. split.
  - intros H n Hn.
    assert (Z.testbit (to_uint32 x) n = Z.testbit (to_uint32 y) n) as Hb
      by (by rewrite H).
    rewrite !to_uint32_bits in Hb by lia.
    destruct (Z.ltb_spec n 32); [|lia]. by rewrite !andb_true_r in Hb.
  - intros H. apply Z.bits_inj'. intros n Hn. rewrite !to_uint32_bits by lia.
    destruct (Z.ltb_spec n 32); [|by rewrite !andb_false_r].
    by rewrite H by lia.
Qed.

Lemma js_xor_bits a b n :
  0 ≤ n < 32 → Z.testbit (js_xor a b) n = xorb (Z.testbit a n) (Z.testbit b n).
Proof.
  intros Hn. unfold js_xor. by rewrite Z.lxor_spec, !to_int32_bits by lia.
Qed.

Lemma crc_shift_bits x n :
  0 ≤ n < 32 →
  Z.testbit (crc_shift x) n
  = xorb (Z.testbit x (n + 1) && (n + 1 <? 32))
         (Z.testbit 3988292384 n && Z.testbit x 0).
Proof.
  intros Hn. unfold crc_shift. rewrite js_xor_bits by lia.
  unfold js_ushr, js_and. rewrite Z.shiftr_spec, to_uint32_bits by lia. f_equal.
  rewrite Z.land_spec, !to_int32_bits by lia. f_equal.
  change (to_int32 1) with 1. change 1 with (Z.ones 1) at 1.
  rewrite Z.land_ones by lia. change (2 ^ 1) with 2.
  rewrite <- Z.bit0_mod, to_int32_bits by lia.
  destruct (Z.testbit x 0); cbn [Z.b2z Z.opp].
  - change (- (1)) with (-1). apply Z.bits_m1. lia.
  - apply Z.bits_0.
Qed.

Lemma crc_shift_eq32 x y : eq32 (crc_shift x) (crc_shift y) ↔ eq32 x y.
Proof.
  rewrite !eq32_bits. split; intros H.
  - assert (Z.testbit x 0 = Z.testbit y 0) as H0.
    { specialize (H 31 ltac:(lia)). rewrite !crc_shift_bits in H by lia.
      change (31 + 1 <? 32) with false in H. rewrite !andb_false_r in H.
      change (Z.testbit 3988292384 31) with true in H. done. }
    intros n Hn. destruct (decide (n = 0)) as [->|Hne]; [done|].
    specialize (H (n - 1) ltac:(lia)). rewrite !crc_shift_bits in H by lia.
    replace (n - 1 + 1) with n in H by lia.
    destruct (Z.ltb_spec n 32); [|lia]. rewrite !andb_true_r, H0 in H.
    by destruct (Z.testbit x n), (Z.testbit y n),
         (Z.testbit 3988292384 (n - 1) && Z.testbit y 0).
  - intros n Hn. rewrite !crc_shift_bits by lia.
    rewrite (H 0) by lia.
    destruct (Z.ltb_spec (n + 1) 32); [|by rewrite !andb_false_r].
    by rewrite (H (n + 1)) by lia.
Qed.

Lemma crc_shifts_eq32 k x y :
  eq32 (Nat.iter k crc_shift x) (Nat.iter k crc_shift y) ↔ eq32 x y.
Proof.
  induction k as [|k IH]; [done|]. rewrite !Nat.iter_succ.
  by rewrite crc_shift_eq32.
Qed.

Lemma crc_byte_eq32 c c' x : eq32 (crc_byte c x) (crc_byte c' x) ↔ eq32 c c'.
Proof.
  unfold crc_byte. rewrite crc_shifts_eq32, !eq32_bits.
  split; intros H n Hn; specialize (H n Hn).
  - rewrite !js_xor_bits in H by lia.
    by destruct (Z.testbit c n), (Z.testbit c' n), (Z.testbit x n).
  - rewrite !js_xor_bits by lia. by rewrite H.
Qed.

Lemma crc_byte_xor c c' x y :
  eq32 (crc_byte c x) (crc_byte c' y) ↔ eq32 (js_xor c x) (js_xor c' y).
Proof. unfold crc_byte. apply crc_shifts_eq32. Qed.

Lemma crc_byte_differs c c' x y :
  eq32 c c' → (0 ≤ x < 256) → (0 ≤ y < 256) → x ≠ y →
  ¬ eq32 (crc_byte c x) (crc_byte c' y).
Proof.
  intros Hc Hx Hy Hne H. apply Hne.
  rewrite crc_byte_xor in H.
  rewrite eq32_bits in Hc, H.
  assert (eq32 x y) as Hxy.
  { apply eq32_bits. intros n Hn. specialize (H n Hn).
    rewrite !js_xor_bits, (Hc n Hn) in H by lia.
    by destruct (Z.testbit c' n), (Z.testbit x n), (Z.testbit y n). }
  rewrite <- (to_uint32_small x), <- (to_uint32_small y) by lia. exact Hxy.
Qed.

Lemma fold_left_step {A B} (f : A → B → A) x w c :
  fold_left f (x :: w) c = fold_left f w (f c x).
Proof. reflexivity. Qed.

Lemma crc_fold_eq32 w : ∀ c c',
  eq32 (fold_left crc_byte w c) (fold_left crc_byte w c') ↔ eq32 c c'.
Proof.
  induction w as [|x w IH]; intros c c'; [done|].
  rewrite !(fold_left_step crc_byte). by rewrite IH, crc_byte_eq32.
Qed.

Lemma calculateCRC32_unfold w :
  calculateCRC32 w = js_ushr (js_not (fold_left crc_byte w 4294967295)) 0.
Proof. reflexivity. Qed.

Lemma crc_final_eq32 s s' :
  js_ushr (js_not s) 0 = js_ushr (js_not s') 0 ↔ eq32 s s'.
Proof.
  unfold js_ushr, js_not. rewrite !Z.shiftr_0_r.
  change (eq32 (Z.lnot (to_int32 s)) (Z.lnot (to_int32 s')) ↔ eq32 s s').
  rewrite !eq32_bits. split; intros H n Hn; specialize (H n Hn).
  - rewrite !Z.lnot_spec, !to_int32_bits in H by lia.
    by destruct (Z.testbit s n), (Z.testbit s' n).
  - rewrite !Z.lnot_spec, !to_int32_bits by lia. by rewrite H.
Qed.

Lemma crc_detects_byte pre suf x y :
  0 ≤ x < 256 → 0 ≤ y < 256 → x ≠ y →
  calculateCRC32 (pre ++ x :: suf) ≠ calculateCRC32 (pre ++ y :: suf).
Proof.
  intros Hx Hy Hne. rewrite !calculateCRC32_unfold, crc_final_eq32.
  rewrite !fold_left_app, !(fold_left_step crc_byte), crc_fold_eq32.
  by apply crc_byte_differs.
Qed.

Lemma crc_range w : 0 ≤ calculateCRC32 w < 4294967296.
Proof.
  rewrite <- calculateCRC32_uint32, to_uint32_mod.
  apply Z.mod_pos_bound. lia.
Qed.

(** X14.  [calculateCRC32] returns an unsigned 32-bit number, and it
    tells apart two byte arrays that differ in one byte only. *)
Theorem crc_detects_single_byte :
  (∀ w, 0 ≤ calculateCRC32 w < 4294967296) ∧
  (∀ pre suf x y,
     0 ≤ x < 256 → 0 ≤ y < 256 → x ≠ y →
     calculateCRC32 (pre ++ x :: suf) ≠ calculateCRC32 (pre ++ y :: suf)).
Proof. split; [apply crc_range|apply crc_detects_byte]. Qed.

Lemma crc_detects_single_byte_witness :
  calculateCRC32 ([1; 2] ++ 3 :: [4]) ≠ calculateCRC32 ([1; 2] ++ 7 :: [4]).
Proof.
  apply (proj2 crc_detects_single_byte [1; 2] [4] 3 7); [lia|lia|discriminate].
Defined.

Local Open Scope nat_scope.
